(** * Roulette box page: outcome reconciliation and spin scheduler

    A shallow embedding of the logic of [src/pages/v1/scratch/[id].tsx]
    (component [RouletteBoxPage]): the rarity function, the expansion of
    the prize catalogue into reel cells, the reconciliation of the play
    result with a reel cell, and the four-state game machine driven by
    clicks, the play response and timers.

    Conventions.
    - A JavaScript [number] is modelled by [number]: NaN, the two
      infinities, or a finite value kept as an exact rational.  Rounding to
      binary64 is not modelled; for decimal numerals of at most 15
      significant digits the comparisons used by the page agree with it.
    - A React state variable read inside a handler is the value of the
      render in which the handler was created.  Handlers therefore receive
      a [State] snapshot next to the live state they update.
    - [Math.random] is an input: the draws are carried by the event that
      needs them. *)

From Stdlib Require Import Bool Arith ZArith QArith Qround Lia Lqa List String Ascii.
From Stdlib Require Import Permutation Finite DecimalString DecimalNat.
Import ListNotations.

Local Open Scope string_scope.

(** ** JavaScript values *)

Module Js.

(** [a || b] on a string and on a nullable string: the empty string and
    [null] are falsy. *)
Definition or_str (a b : string) : string :=
  match a with EmptyString => b | _ => a end.

Definition or_opt (a : option string) (b : string) : string :=
  match a with
  | Some s => or_str s b
  | None => b
  end.

(** [a || b] where [b] is itself nullable. *)
Definition or_str_opt (a : string) (b : option string) : option string :=
  match a with EmptyString => b | _ => Some a end.

Inductive number : Type :=
| NaN
| NegInfinity
| Fin (q : Q)
| PosInfinity.

(** [a >= b]. *)
Definition ge (a b : number) : bool :=
  match a, b with
  | NaN, _ | _, NaN => false
  | PosInfinity, _ => true
  | _, NegInfinity => true
  | NegInfinity, _ => false
  | _, PosInfinity => false
  | Fin x, Fin y => Qle_bool y x
  end.

(** [a === b] on numbers: NaN differs from everything. *)
Definition strict_eq (a b : number) : bool :=
  match a, b with
  | NegInfinity, NegInfinity => true
  | PosInfinity, PosInfinity => true
  | Fin x, Fin y => Qeq_bool x y
  | _, _ => false
  end.

Definition of_Z (z : Z) : number := Fin (inject_Z z).

(** *** [parseFloat] *)

Definition is_space (c : ascii) : bool :=
  let n := nat_of_ascii c in
  ((n =? 32) || (n =? 9) || (n =? 10) || (n =? 11) || (n =? 12) || (n =? 13))%nat.

Definition digit_of (c : ascii) : option Z :=
  let n := nat_of_ascii c in
  if ((48 <=? n) && (n <=? 57))%nat then Some (Z.of_nat n - 48)%Z else None.

Fixpoint skip_spaces (s : string) : string :=
  match s with
  | String c r => if is_space c then skip_spaces r else s
  | EmptyString => s
  end.

(** Reads the longest run of decimal digits: the value accumulated on
    [acc], the number of digits read, and the rest of the string. *)
Fixpoint digits (s : string) (acc : Z) (cnt : nat) : Z * nat * string :=
  match s with
  | String c r =>
      match digit_of c with
      | Some d => digits r (10 * acc + d)%Z (S cnt)
      | None => (acc, cnt, s)
      end
  | EmptyString => (acc, cnt, s)
  end.

(** The sign prefix: [true] for a leading minus. *)
Definition sign (s : string) : bool * string :=
  match s with
  | String "-" r => (true, r)
  | String "+" r => (false, r)
  | _ => (false, s)
  end.

(** The exponent part, when one is well formed; 0 otherwise. *)
Definition exponent (s : string) : Z :=
  match s with
  | String c r =>
      if (Ascii.eqb c "e" || Ascii.eqb c "E")%bool then
        let '(neg, r') := sign r in
        let '(x, n, _) := digits r' 0%Z 0%nat in
        match n with
        | O => 0%Z
        | S _ => if neg then (- x)%Z else x
        end
      else 0%Z
  | EmptyString => 0%Z
  end.

Definition scale (q : Q) (e : Z) : Q :=
  if (0 <=? e)%Z then q * inject_Z (10 ^ e)
  else q / inject_Z (10 ^ (- e)).

(** The unsigned decimal literal at the head of [s]. *)
Definition unsigned_literal (s : string) : option Q :=
  let '(a, na, r1) := digits s 0%Z 0%nat in
  let '(b, nb, r2) :=
    match r1 with
    | String "." r => digits r 0%Z 0%nat
    | _ => (0%Z, 0%nat, r1)
    end in
  match (na + nb)%nat with
  | O => None
  | S _ =>
      let m := (inject_Z a + inject_Z b / inject_Z (10 ^ Z.of_nat nb))%Q in
      Some (Qred (scale m (exponent r2)))
  end.

Definition parseFloat (s : string) : number :=
  let '(neg, r) := sign (skip_spaces s) in
  if prefix "Infinity" r then (if neg then NegInfinity else PosInfinity)
  else match unsigned_literal r with
       | Some q => Fin (if neg then Qred (- q) else q)
       | None => NaN
       end.

End Js.

(** ** Strings used by the page *)

(** [s.replace(pat, rep)] with a string pattern: the first occurrence. *)
Fixpoint replace_first (pat rep s : string) : string :=
  if prefix pat s then
    rep ++ substring (String.length pat) (String.length s - String.length pat) s
  else
    match s with
    | EmptyString => EmptyString
    | String c r => String c (replace_first pat rep r)
    end.

(** The decimal rendering of a loop counter inside a template string. *)
Definition decimal (n : nat) : string :=
  NilEmpty.string_of_uint (Nat.to_uint n).

(** ** Data model *)

(** [interface Prize]; the fields the page never reads (description,
    probability, timestamps, scratchCardId) are left out. *)
Module Prize.
Record t : Type := Build {
  id : string;
  name : string;
  type : string;
  value : string;
  product_name : option string;
  redemption_value : option string;
  image_url : string;
  is_active : bool
}.
End Prize.

(** [interface GamePrize]. *)
Module GamePrize.
Record t : Type := Build {
  id : string;
  name : string;
  type : string;
  value : string;
  product_name : option string;
  redemption_value : option string;
  image_url : string
}.
End GamePrize.

(** [interface GameResult]; the [scratchCard] echo is left out. *)
Module GameResult.
Record t : Type := Build {
  isWinner : bool;
  amountWon : string;
  prize : option GamePrize.t
}.
End GameResult.

Inductive Rarity : Type := common | rare | epic | legendary.

Definition Rarity_eqb (a b : Rarity) : bool :=
  match a, b with
  | common, common | rare, rare | epic, epic | legendary, legendary => true
  | _, _ => false
  end.

(** [interface RouletteItem]; [isWinning] is an optional field. *)
Module RouletteItem.
Record t : Type := Build {
  id : string;
  name : string;
  image : string;
  value : string;
  type : string;
  isWinning : option bool;
  rarity : Rarity
}.

(** [item.isWinning = true] *)
Definition mark (it : t) : t :=
  Build (id it) (name it) (image it) (value it) (type it) (Some true) (rarity it).
End RouletteItem.

(** [interface ScratchCardData], reduced to the fields the game reads. *)
Module ScratchCardData.
Record t : Type := Build {
  id : string;
  name : string;
  price : string;
  prizes : list Prize.t
}.
End ScratchCardData.

Inductive GameState : Type := idle | loading | spinning | completed.

(** ** Prize catalogue expander *)

Definition fixImageUrl (url : string) : string :=
  match url with
  | EmptyString => EmptyString
  | _ =>
      replace_first "/uploads/prizes/" "/uploads/"
        (replace_first "/uploads/scratchcards/" "/uploads/"
           (replace_first "raspa.ae" "api.raspapixoficial.com" url))
  end.

Definition getRarityFromValue (value : Js.number) : Rarity :=
  if Js.ge value (Js.of_Z 1000) then legendary
  else if Js.ge value (Js.of_Z 100) then epic
  else if Js.ge value (Js.of_Z 10) then rare
  else common.

(** The [switch] of [generateRouletteItems]. *)
Definition repetitions (rarity : Rarity) : nat :=
  match rarity with
  | common => 8
  | rare => 4
  | epic => 2
  | legendary => 1
  end.

(** [prize.value || prize.redemption_value || '0'] (line 208). *)
Definition effective_value (prize : Prize.t) : string :=
  Js.or_opt (Js.or_str_opt (Prize.value prize) (Prize.redemption_value prize)) "0".

(** [prize.type === 'MONEY' ? prize.value || '0' : prize.redemption_value || '0']:
    the value the prize grid of the same page displays (lines 635 and 641). *)
Definition grid_value (prize : Prize.t) : string :=
  if String.eqb (Prize.type prize) "MONEY"
  then Js.or_str (Prize.value prize) "0"
  else Js.or_opt (Prize.redemption_value prize) "0".

Definition prize_rarity (prize : Prize.t) : Rarity :=
  getRarityFromValue (Js.parseFloat (effective_value prize)).

(** The object pushed by the body of the [for] loop. *)
Definition cell (prize : Prize.t) (rarity : Rarity) (i : nat) : RouletteItem.t :=
  RouletteItem.Build
    (Prize.id prize ++ "-" ++ decimal i)
    (if String.eqb (Prize.type prize) "MONEY" then Prize.name prize
     else Js.or_opt (Prize.product_name prize) (Prize.name prize))
    (Js.or_str (fixImageUrl (Prize.image_url prize)) "/50_money.webp")
    (if String.eqb (Prize.type prize) "MONEY" then Prize.value prize
     else Js.or_opt (Prize.redemption_value prize) "0")
    (Prize.type prize)
    None
    rarity.

(** One iteration of [prizes.forEach]. *)
Definition expand (prize : Prize.t) : list RouletteItem.t :=
  let rarity := prize_rarity prize in
  map (cell prize rarity) (seq 0 (repetitions rarity)).

Fixpoint insert_at {A : Type} (n : nat) (x : A) (l : list A) : list A :=
  match n, l with
  | S n', y :: l' => y :: insert_at n' x l'
  | _, _ => x :: l
  end.

(** [items.sort(() => Math.random() - 0.5)].  The engine returns some
    rearrangement of the array that depends on the draws; the model lets
    the draws place each element in turn, so that every rearrangement is
    obtained for suitable draws (see [shuffle_onto]). *)
Fixpoint shuffle {A : Type} (draws : list nat) (l : list A) : list A :=
  match l with
  | [] => []
  | x :: l' =>
      match draws with
      | [] => x :: shuffle [] l'
      | d :: ds => insert_at d x (shuffle ds l')
      end
  end.

Definition generateRouletteItems (draws : list nat) (prizes : list Prize.t)
  : list RouletteItem.t :=
  shuffle draws (flat_map expand prizes).

(** ** Outcome reconciliation (body of [handleOpenBox], lines 315-332) *)

(** [Math.random()]: the draw reduced to the interval from 0 (included)
    to 1 (excluded). *)
Definition random (u : Q) : Q := u - inject_Z (Qfloor u).

(** [Math.floor(Math.random() * n)] *)
Definition random_index (u : Q) (n : nat) : nat :=
  Z.to_nat (Qfloor (random u * inject_Z (Z.of_nat n))).

(** [result.prize?.value || result.prize?.redemption_value || '0'] *)
Definition won_value (prize : GamePrize.t) : string :=
  Js.or_opt (Js.or_str_opt (GamePrize.value prize) (GamePrize.redemption_value prize)) "0".

(** The predicate given to [items.find]. *)
Definition matches (prize : GamePrize.t) (item : RouletteItem.t) : bool :=
  String.eqb (RouletteItem.type item) (GamePrize.type prize)
  && Js.strict_eq (Js.parseFloat (RouletteItem.value item))
                  (Js.parseFloat (won_value prize)).

Fixpoint find_index {A : Type} (f : A -> bool) (l : list A) : option nat :=
  match l with
  | [] => None
  | x :: l' => if f x then Some 0%nat else option_map S (find_index f l')
  end.

(** Writes through the reference returned by [find]: the object sits in
    one slot of the array, which is the array held by [rouletteItems]. *)
Fixpoint mark_at (i : nat) (l : list RouletteItem.t) : list RouletteItem.t :=
  match i, l with
  | O, x :: l' => RouletteItem.mark x :: l'
  | S i', x :: l' => x :: mark_at i' l'
  | _, [] => []
  end.

Definition is_common (item : RouletteItem.t) : bool :=
  Rarity_eqb (RouletteItem.rarity item) common.

(** The outcome of lines 315-332: the array after the possible write, the
    target item, and the argument of [setWinningItem] when it is called. *)
Record Reconciled : Type := {
  items_after : list RouletteItem.t;
  targetItem : option RouletteItem.t;
  winning_set : option RouletteItem.t
}.

Definition reconcile (u : Q) (result : GameResult.t) (items : list RouletteItem.t)
  : Reconciled :=
  match GameResult.isWinner result, GameResult.prize result with
  | true, Some prize =>
      match find_index (matches prize) items with
      | Some i =>
          let items' := mark_at i items in
          {| items_after := items';
             targetItem := nth_error items' i;
             winning_set := nth_error items' i |}
      | None =>
          {| items_after := items; targetItem := None; winning_set := None |}
      end
  | _, _ =>
      let commonItems := filter is_common items in
      {| items_after := items;
         targetItem :=
           match nth_error commonItems (random_index u (List.length commonItems)) with
           | Some it => Some it
           | None => hd_error items
           end;
         winning_set := None |}
  end.

(** ** The page component: state, handlers, timers *)

Module RouletteBoxPage.

(** The [useState] variables of the game. *)
Record State : Type := {
  gameState : GameState;
  rouletteItems : list RouletteItem.t;
  showConfetti : bool;
  hasWon : bool;
  totalWinnings : Js.number;
  gameResult : option GameResult.t;
  playingGame : bool;
  winningItem : option RouletteItem.t;
  isSpinning : bool;
  spinDuration : Z;
  finalRotation : Z
}.

Definition setGameState v s :=
  Build_State v (rouletteItems s) (showConfetti s) (hasWon s) (totalWinnings s)
    (gameResult s) (playingGame s) (winningItem s) (isSpinning s)
    (spinDuration s) (finalRotation s).
Definition setRouletteItems v s :=
  Build_State (gameState s) v (showConfetti s) (hasWon s) (totalWinnings s)
    (gameResult s) (playingGame s) (winningItem s) (isSpinning s)
    (spinDuration s) (finalRotation s).
Definition setShowConfetti v s :=
  Build_State (gameState s) (rouletteItems s) v (hasWon s) (totalWinnings s)
    (gameResult s) (playingGame s) (winningItem s) (isSpinning s)
    (spinDuration s) (finalRotation s).
Definition setHasWon v s :=
  Build_State (gameState s) (rouletteItems s) (showConfetti s) v (totalWinnings s)
    (gameResult s) (playingGame s) (winningItem s) (isSpinning s)
    (spinDuration s) (finalRotation s).
Definition setTotalWinnings v s :=
  Build_State (gameState s) (rouletteItems s) (showConfetti s) (hasWon s) v
    (gameResult s) (playingGame s) (winningItem s) (isSpinning s)
    (spinDuration s) (finalRotation s).
Definition setGameResult v s :=
  Build_State (gameState s) (rouletteItems s) (showConfetti s) (hasWon s)
    (totalWinnings s) v (playingGame s) (winningItem s) (isSpinning s)
    (spinDuration s) (finalRotation s).
Definition setPlayingGame v s :=
  Build_State (gameState s) (rouletteItems s) (showConfetti s) (hasWon s)
    (totalWinnings s) (gameResult s) v (winningItem s) (isSpinning s)
    (spinDuration s) (finalRotation s).
Definition setWinningItem v s :=
  Build_State (gameState s) (rouletteItems s) (showConfetti s) (hasWon s)
    (totalWinnings s) (gameResult s) (playingGame s) v (isSpinning s)
    (spinDuration s) (finalRotation s).
Definition setIsSpinning v s :=
  Build_State (gameState s) (rouletteItems s) (showConfetti s) (hasWon s)
    (totalWinnings s) (gameResult s) (playingGame s) (winningItem s) v
    (spinDuration s) (finalRotation s).
Definition setSpinDuration v s :=
  Build_State (gameState s) (rouletteItems s) (showConfetti s) (hasWon s)
    (totalWinnings s) (gameResult s) (playingGame s) (winningItem s)
    (isSpinning s) v (finalRotation s).
Definition setFinalRotation v s :=
  Build_State (gameState s) (rouletteItems s) (showConfetti s) (hasWon s)
    (totalWinnings s) (gameResult s) (playingGame s) (winningItem s)
    (isSpinning s) (spinDuration s) v.

(** The initial values given to [useState]. *)
Definition initial : State :=
  Build_State idle [] false false (Js.of_Z 0) None false None false 0%Z 0%Z.

(** What the component receives from the router, the auth context and
    the catalogue fetch.  [scratchCardData.prizes] is the array as the
    last render left it (the prize grid sorts it in place); no property
    below depends on the order of the catalogue. *)
Record Props : Type := {
  isAuthenticated : bool;
  token : option string;
  id : option string;
  scratchCardData : option ScratchCardData.t
}.

(** What the handlers of one render close over.  [handleOpenBox],
    [startRouletteSpin] and [handlePlayAgain] are created anew by every
    render and read the constants that [useState] returned to that render:
    [seen] holds them.  A [set...] call made by a handler changes the live
    state, shown by the next render, and not the constants of the handler
    that is running.  [card] is [scratchCardData], which the guard of the
    handler found to be set. *)
Record Closure : Type := {
  seen : State;
  card : ScratchCardData.t
}.

Inductive Effect : Type :=
| PlayRequest (scratchCardId authToken : string)
| ToastError (message : string)
| ProfileRequest (authToken : string).

Inductive Callback : Type :=
| SpinEnd (c : Closure)
| ConfettiEnd.

Record Timer : Type := {
  due : Z;
  callback : Callback
}.

(** One game session: the live state, the clock in milliseconds, the
    handler suspended at [await playGame], the pending timers and what
    the page has sent out so far. *)
Record World : Type := {
  props : Props;
  state : State;
  now : Z;
  awaiting : option Closure;
  timers : list Timer;
  effects : list Effect
}.

Definition upd (f : State -> State) (w : World) : World :=
  Build_World (props w) (f (state w)) (now w) (awaiting w) (timers w) (effects w).

Definition emit (e : Effect) (w : World) : World :=
  Build_World (props w) (state w) (now w) (awaiting w) (timers w) (effects w ++ [e]).

Definition suspend (c : option Closure) (w : World) : World :=
  Build_World (props w) (state w) (now w) c (timers w) (effects w).

Definition setTimeout (cb : Callback) (delay : Z) (w : World) : World :=
  Build_World (props w) (state w) (now w) (awaiting w)
    (timers w ++ [Build_Timer (now w + delay)%Z cb]) (effects w).

(** [items.findIndex(f)], -1 when nothing is found. *)
Definition findIndex {A : Type} (f : A -> bool) (l : list A) : Z :=
  match find_index f l with
  | Some i => Z.of_nat i
  | None => (-1)%Z
  end.

Definition refreshUserBalance (w : World) : World :=
  match token (props w) with
  | Some (String a r) => emit (ProfileRequest (String a r)) w
  | _ => w
  end.

(** The callback given to [setTimeout] by [startRouletteSpin] (lines
    368-380).  The [gameResult] it tests is the constant of the render in
    which the button was clicked, not the result that [handleOpenBox] has
    just passed to [setGameResult]. *)
Definition spinEnd (c : Closure) (w : World) : World :=
  let w1 := upd (setGameState completed) (upd (setIsSpinning false) w) in
  let w2 :=
    match gameResult (seen c) with
    | Some r =>
        if GameResult.isWinner r then
          setTimeout ConfettiEnd 5000%Z
            (upd (setShowConfetti true)
               (upd (setTotalWinnings (Js.parseFloat (GameResult.amountWon r)))
                  (upd (setHasWon true) w1)))
        else w1
    | None => w1
    end in
  refreshUserBalance w2.

Definition startRouletteSpin (c : Closure) (targetItem : option RouletteItem.t)
           (items : list RouletteItem.t) (w : World) : World :=
  match targetItem with
  | None => w
  | Some target =>
      if (List.length items =? 0)%nat then w
      else
        let w1 := upd (setIsSpinning true) w in
        let targetIndex :=
          findIndex (fun item => String.eqb (RouletteItem.id item) (RouletteItem.id target))
                    items in
        let itemWidth := 120%Z in
        let containerWidth := 500%Z in
        let totalWidth := (Z.of_nat (List.length items) * itemWidth)%Z in
        let finalPosition :=
          (targetIndex * itemWidth - containerWidth / 2 + itemWidth / 2)%Z in
        let fullRotations := 3%Z in
        let finalRotation := (fullRotations * totalWidth + finalPosition)%Z in
        let w2 := upd (setFinalRotation finalRotation) w1 in
        let duration := 4000%Z in
        let w3 := upd (setSpinDuration duration) w2 in
        setTimeout (SpinEnd c) duration w3
  end.

(** The [else] branch of [handleOpenBox] (lines 336-339). *)
Definition handleOpenBox_failed (errorMessage : option string) (w : World) : World :=
  emit (ToastError (Js.or_opt errorMessage "Erro ao abrir a box. Tente novamente."))
       (upd (setGameState idle) w).

(** What [Math.random] yields while one result is processed. *)
Record Draws : Type := {
  sort_draws : list nat;
  pick_draw : Q
}.

(** The [if] branch of [handleOpenBox] (lines 308-335). *)
Definition handleOpenBox_spin (c : Closure) (d : Draws) (result : GameResult.t)
           (w : World) : World :=
  let w1 := upd (setGameResult (Some result)) w in
  let items := generateRouletteItems (sort_draws d) (ScratchCardData.prizes (card c)) in
  let r := reconcile (pick_draw d) result items in
  let w2 := upd (setRouletteItems (items_after r)) w1 in
  let w3 :=
    match winning_set r with
    | Some it => upd (setWinningItem (Some it)) w2
    | None => w2
    end in
  let w4 := upd (setGameState spinning) w3 in
  startRouletteSpin c (targetItem r) (items_after r) w4.

(** How the [fetch] of [playGame] ends: it throws, or a response body is
    decoded. *)
Inductive FetchOutcome : Type :=
| Rejects
| Responds (success : bool) (message : string) (result : option GameResult.t).

Record PlayReturn : Type := {
  result : option GameResult.t;
  errorMessage : option string
}.

(** The value [playGame] resolves to once the fetch has ended. *)
Definition playGame_return (o : FetchOutcome) : PlayReturn :=
  match o with
  | Rejects => Build_PlayReturn None (Some "Erro de conexão com o servidor.")
  | Responds true _ r => Build_PlayReturn r None
  | Responds false m _ => Build_PlayReturn None (Some m)
  end.

(** [handleOpenBox] after [await playGame]; [setPlayingGame(false)] is
    the [finally] of [playGame]. *)
Definition handleOpenBox_resume (c : Closure) (o : FetchOutcome) (d : Draws)
           (w : World) : World :=
  let w1 := upd (setPlayingGame false) (suspend None w) in
  let ret := playGame_return o in
  match result ret with
  | Some r => handleOpenBox_spin c d r w1
  | None => handleOpenBox_failed (errorMessage ret) w1
  end.

(** [handleOpenBox] up to [await playGame]; [seen] is the state of the
    render the handler belongs to. *)
Definition handleOpenBox (seen : State) (w : World) : World :=
  match scratchCardData (props w) with
  | None => w
  | Some data =>
      if negb (isAuthenticated (props w)) || playingGame seen then w
      else
        let w1 :=
          upd (setWinningItem None)
            (upd (setGameResult None)
               (upd (setTotalWinnings (Js.of_Z 0))
                  (upd (setHasWon false)
                     (upd (setShowConfetti false)
                        (upd (setGameState loading) w))))) in
        let authToken := Js.or_opt (token (props w)) "" in
        match id (props w), authToken with
        | Some (String a r), String b t =>
            suspend (Some (Build_Closure seen data))
              (emit (PlayRequest (String a r) authToken)
                 (upd (setPlayingGame true) w1))
        | _, _ =>
            handleOpenBox_failed (Some "Dados de autenticação ausentes.") w1
        end
  end.

Definition handlePlayAgain (seen : State) (w : World) : World :=
  match scratchCardData (props w) with
  | None => w
  | Some _ =>
      if negb (isAuthenticated (props w)) || playingGame seen then w
      else
        let w1 :=
          upd (setFinalRotation 0%Z)
            (upd (setIsSpinning false)
               (upd (setWinningItem None)
                  (upd (setGameResult None)
                     (upd (setTotalWinnings (Js.of_Z 0))
                        (upd (setHasWon false)
                           (upd (setShowConfetti false)
                              (upd (setRouletteItems []) w))))))) in
        handleOpenBox seen w1
  end.

(** *** What the render offers *)

Definition GameState_eqb (a b : GameState) : bool :=
  match a, b with
  | idle, idle | loading, loading | spinning, spinning
  | completed, completed => true
  | _, _ => false
  end.

(** [disabled={!isAuthenticated || !scratchCardData}] *)
Definition button_disabled (p : Props) : bool :=
  negb (isAuthenticated p)
  || match scratchCardData p with Some _ => false | None => true end.

(** [gameResult?.prize?.type === 'PRODUCT'] *)
Definition won_product (s : State) : bool :=
  match gameResult s with
  | Some r =>
      match GameResult.prize r with
      | Some p => String.eqb (GamePrize.type p) "PRODUCT"
      | None => false
      end
  | None => false
  end.

(** The "Abrir Box" button is rendered in state [idle] only. *)
Definition open_box_button (w : World) : bool :=
  GameState_eqb (gameState (state w)) idle && negb (button_disabled (props w)).

(** The "Girar Novamente" button is rendered in state [completed],
    unless a product was won (then the inventory link takes its place). *)
Definition play_again_button (w : World) : bool :=
  GameState_eqb (gameState (state w)) completed
  && negb (hasWon (state w) && won_product (state w))
  && negb (button_disabled (props w)).

(** *** Events *)

Definition run_callback (cb : Callback) (w : World) : World :=
  match cb with
  | SpinEnd c => spinEnd c w
  | ConfettiEnd => upd (setShowConfetti false) w
  end.

(** One millisecond passes; the timers that are due run in the order in
    which they were set. *)
Definition tick (w : World) : World :=
  let t := (now w + 1)%Z in
  let ready := filter (fun tm => (due tm <=? t)%Z) (timers w) in
  let rest := filter (fun tm => negb (due tm <=? t)%Z) (timers w) in
  fold_left (fun w' tm => run_callback (callback tm) w') ready
    (Build_World (props w) (state w) t (awaiting w) rest (effects w)).

Inductive Event : Type :=
| ClickOpenBox
| ClickPlayAgain
| PlaySettled (o : FetchOutcome) (d : Draws)
| Tick.

Definition step (w : World) (e : Event) : World :=
  match e with
  | ClickOpenBox =>
      if open_box_button w then handleOpenBox (state w) w else w
  | ClickPlayAgain =>
      if play_again_button w then handlePlayAgain (state w) w else w
  | PlaySettled o d =>
      match awaiting w with
      | Some c => handleOpenBox_resume c o d w
      | None => w
      end
  | Tick => tick w
  end.

Definition mount (p : Props) : World :=
  Build_World p initial 0%Z None [] [].

Definition run (w : World) (es : list Event) : World := fold_left step es w.

(** [ms] milliseconds pass. *)
Definition wait (ms : N) (w : World) : World := N.iter ms tick w.

Inductive reachable (p : Props) : World -> Prop :=
| reach_mount : reachable p (mount p)
| reach_step : forall w e, reachable p w -> reachable p (step w e).

Definition is_user_action (e : Event) : bool :=
  match e with
  | ClickOpenBox | ClickPlayAgain => true
  | _ => false
  end.

End RouletteBoxPage.

(** ** Definitions used to state the properties *)

(** The effective value of a prize in the words of the specification: the
    monetary value for a MONEY prize, the redemption value otherwise, a
    missing or unparseable value counting as 0. *)
Definition spec_effective_value (prize : Prize.t) : Js.number :=
  let field :=
    if String.eqb (Prize.type prize) "MONEY" then Some (Prize.value prize)
    else Prize.redemption_value prize in
  match field with
  | None | Some EmptyString => Js.of_Z 0
  | Some s =>
      match Js.parseFloat s with
      | Js.NaN => Js.of_Z 0
      | v => v
      end
  end.

(** The value of a won prize read from the field its category designates,
    as the reel cells are built (line 225). *)
Definition won_category_value (prize : GamePrize.t) : string :=
  if String.eqb (GamePrize.type prize) "MONEY" then GamePrize.value prize
  else Js.or_opt (GamePrize.redemption_value prize) "0".

(** A cell and a won prize agree on category and on the numeric value of
    the category's field. *)
Definition exact_match (prize : GamePrize.t) (item : RouletteItem.t) : bool :=
  String.eqb (RouletteItem.type item) (GamePrize.type prize)
  && Js.strict_eq (Js.parseFloat (RouletteItem.value item))
                  (Js.parseFloat (won_category_value prize)).

Definition unflagged (item : RouletteItem.t) : Prop :=
  RouletteItem.isWinning item = None.

Module Invariant.
Import RouletteBoxPage.

Definition is_spin_end (t : Timer) : bool :=
  match callback t with
  | SpinEnd _ => true
  | ConfettiEnd => false
  end.

(** The number of spin-completion timers in a list. *)
Definition spins (l : list Timer) : nat := List.length (filter is_spin_end l).

(** No per-spin data is set. *)
Definition clean (s : State) : Prop :=
  rouletteItems s = [] /\ winningItem s = None /\ hasWon s = false
  /\ totalWinnings s = Js.of_Z 0 /\ gameResult s = None
  /\ showConfetti s = false /\ isSpinning s = false /\ finalRotation s = 0%Z.

(** The invariant of a session; [extra] are timers taken off the list
    that have yet to run within the current tick. *)
Definition Inv (extra : list Timer) (w : World) : Prop :=
  match gameState (state w) with
  | idle =>
      awaiting w = None /\ (spins extra + spins (timers w) = 0)%nat
      /\ clean (state w)
  | loading =>
      awaiting w <> None /\ (spins extra + spins (timers w) = 0)%nat
      /\ clean (state w)
  | spinning =>
      awaiting w = None /\ (spins extra + spins (timers w) <= 1)%nat
  | completed =>
      awaiting w = None /\ (spins extra + spins (timers w) = 0)%nat
  end.
(** [w'] is [w], possibly with the confetti switched off. *)
Definition calm (w w' : World) : Prop :=
  w' = w \/ w' = upd (setShowConfetti false) w.

(** [gameResult?.isWinner] as the completion callback of closure [c]
    evaluates it. *)
Definition closure_winner (c : Closure) : bool :=
  match gameResult (seen c) with
  | Some r => GameResult.isWinner r
  | None => false
  end.

(** The amount the completion callback of closure [c] passes to
    [setTotalWinnings], when it does. *)
Definition closure_amount (c : Closure) : option Js.number :=
  match gameResult (seen c) with
  | Some r =>
      if GameResult.isWinner r then Some (Js.parseFloat (GameResult.amountWon r))
      else None
  | None => None
  end.

(** Exactly one completion timer is pending: it is due at [D] and
    belongs to closure [c]. *)
Definition spin_pending (D : Z) (c : Closure) (w : World) : Prop :=
  filter is_spin_end (timers w) = [Build_Timer D (SpinEnd c)].
End Invariant.

(** ** Concrete sessions *)

Module Scenario.
Import RouletteBoxPage.

Definition money (pid v : string) (active : bool) : Prize.t :=
  Prize.Build pid ("R$ " ++ v) "MONEY" v None None "" active.

Definition product (pid v redemption : string) : Prize.t :=
  Prize.Build pid "Produto" "PRODUCT" v (Some "Fone") (Some redemption) "" true.

Definition box (prizes : list Prize.t) : ScratchCardData.t :=
  ScratchCardData.Build "box-1" "Box" "5.00" prizes.

Definition player (prizes : list Prize.t) : Props :=
  Build_Props true (Some "jwt") (Some "box-1") (Some (box prizes)).

Definition won_money (v : string) : GameResult.t :=
  GameResult.Build true v
    (Some (GamePrize.Build "p1" ("R$ " ++ v) "MONEY" v None None "")).

Definition won_product (v redemption : string) : GameResult.t :=
  GameResult.Build true "0"
    (Some (GamePrize.Build "p1" "Produto" "PRODUCT" v (Some "Fone") (Some redemption) "")).

Definition lost : GameResult.t := GameResult.Build false "0" None.

Definition no_draws : Draws := Build_Draws [] 0.

Definition ok (r : GameResult.t) : Event :=
  PlaySettled (Responds true "ok" (Some r)) no_draws.

(** Scenario 2 of the specification: one MONEY prize of 1500, won. *)
Definition spin_1500 : World :=
  run (mount (player [money "p1" "1500" true])) [ClickOpenBox; ok (won_money "1500")].

(** Scenario 3: the won prize of 2500 is not in the catalogue. *)
Definition spin_2500 : World :=
  run (mount (player [money "p1" "1500" true])) [ClickOpenBox; ok (won_money "2500")].

(** A second spin, lost, after the win of scenario 2 has completed. *)
Definition replay_lost : World :=
  run (wait 4000%N spin_1500) [ClickPlayAgain; ok lost].

(** A session waiting for the play response. *)
Definition in_flight : World :=
  run (mount (player [money "p1" "5" true])) [ClickOpenBox].

(** A lost spin in progress. *)
Definition spin_lost : World := run in_flight [ok lost].
End Scenario.

(** ** Further parts of the page *)

(** [s.includes(pat)], to say which addresses [fixImageUrl] leaves alone. *)
Fixpoint occurs (pat s : string) : bool :=
  prefix pat s
  || match s with
     | EmptyString => false
     | String _ r => occurs pat r
     end.

(** No character of [s] is other than a decimal digit. *)
Fixpoint all_digits (s : string) : bool :=
  match s with
  | EmptyString => true
  | String c r =>
      match Js.digit_of c with
      | Some _ => all_digits r
      | None => false
      end
  end.

(** The catalogue fetch: [fetchScratchCardData] (lines 166-185) with the
    guard of the effect that calls it (lines 188-192). *)
Module CatalogueFetch.

(** The [useState] variables of lines 137-139. *)
Record State : Type := {
  scratchCardData : option ScratchCardData.t;
  loading : bool;
  error : option string
}.

Definition initial : State := Build_State None true None.

(** How the fetch ends: it throws, or a body [{success, message, data}] is
    decoded. *)
Inductive FetchOutcome : Type :=
| Rejects
| Responds (success : bool) (message : string) (data : option ScratchCardData.t).

Definition fetchScratchCardData (id : option string) (o : FetchOutcome) (s : State)
  : State :=
  match id with
  | Some (String _ _) =>
      match o with
      | Responds true _ data => Build_State data false (error s)
      | Responds false _ _ =>
          Build_State (scratchCardData s) false (Some "Box não encontrada")
      | Rejects =>
          Build_State (scratchCardData s) false (Some "Erro ao carregar box")
      end
  | _ => s
  end.

(** The game part of the page sees the catalogue through its props. *)
Definition props_of (isAuthenticated : bool) (token id : option string) (s : State)
  : RouletteBoxPage.Props :=
  RouletteBoxPage.Build_Props isAuthenticated token id (scratchCardData s).

End CatalogueFetch.

Module Coverage.
Import RouletteBoxPage.

(** The moves of the game state that the page makes. *)
Definition allowed (a b : GameState) : bool :=
  match a, b with
  | idle, idle | idle, loading
  | loading, loading | loading, idle | loading, spinning
  | spinning, spinning | spinning, completed
  | completed, completed | completed, loading => true
  | _, _ => false
  end.

Definition flagged (item : RouletteItem.t) : bool :=
  match RouletteItem.isWinning item with
  | Some true => true
  | _ => false
  end.

(** The winning item and the flags of the reel agree. *)
Definition flags_agree (s : State) : Prop :=
  match winningItem s with
  | Some it =>
      In it (rouletteItems s)
      /\ filter flagged (rouletteItems s) = [it]
  | None => Forall unflagged (rouletteItems s)
  end.

(** A play request is in flight. *)
Definition in_flight (w : World) : bool :=
  match awaiting w with
  | Some _ => true
  | None => false
  end.

(** Nothing of a win is on display. *)
Definition no_win_shown (s : State) : Prop :=
  hasWon s = false /\ showConfetti s = false /\ totalWinnings s = Js.of_Z 0.

(** A win is displayed in state [completed] only, and the confetti only with
    the win flag. *)
Definition win_display_ok (s : State) : Prop :=
  match gameState s with
  | completed => showConfetti s = true -> hasWon s = true
  | _ => no_win_shown s
  end.

(** What a play request of the session must carry. *)
Definition request_ok (p : Props) (e : Effect) : Prop :=
  match e with
  | PlayRequest i t =>
      id p = Some i /\ token p = Some t /\ i <> "" /\ t <> ""
      /\ isAuthenticated p = true /\ scratchCardData p <> None
  | ProfileRequest t => token p = Some t /\ t <> ""
  | ToastError m => m <> ""
  end.

(** What [refreshUserBalance] sends for the props [p]. *)
Definition profile_request (p : Props) : list Effect :=
  match token p with
  | Some (String a r) => [ProfileRequest (String a r)]
  | _ => []
  end.

(** The handler's guard: [!isAuthenticated || playingGame || !scratchCardData]. *)
Definition guard_stops (seen : State) (p : Props) : Prop :=
  scratchCardData p = None \/ isAuthenticated p = false \/ playingGame seen = true.

(** [w'] is [w] after a play attempt has started: the data of the previous
    spin is cleared and either the request is out, or - a route id or a
    token missing - the attempt has already failed. *)
Definition attempt (w w' : World) : Prop :=
  props w' = props w
  /\ timers w' = timers w
  /\ winningItem (state w') = None
  /\ gameResult (state w') = None
  /\ no_win_shown (state w')
  /\ ((exists i t,
         id (props w) = Some i /\ token (props w) = Some t
         /\ i <> "" /\ t <> ""
         /\ gameState (state w') = loading
         /\ playingGame (state w') = true
         /\ awaiting w' <> None
         /\ effects w' = (effects w ++ [PlayRequest i t])%list)
      \/ ((forall i t, id (props w) = Some i -> token (props w) = Some t ->
                       i = "" \/ t = "")
          /\ gameState (state w') = idle
          /\ playingGame (state w') = playingGame (state w)
          /\ awaiting w' = awaiting w
          /\ effects w'
             = (effects w ++ [ToastError "Dados de autenticação ausentes."])%list)).

(** Everything the proofs below maintain about a session of props [p]. *)
Definition sound (p : Props) (w : World) : Prop :=
  props w = p
  /\ Invariant.Inv [] w
  /\ playingGame (state w) = in_flight w
  /\ win_display_ok (state w)
  /\ flags_agree (state w)
  /\ Forall (request_ok p) (effects w).

End Coverage.

(** * Properties *)

(** ** Numbers *)

Lemma ge_Fin (x : Q) (z : Z) :
  Js.ge (Js.Fin x) (Js.of_Z z) = true <-> inject_Z z <= x.
Proof. unfold Js.ge, Js.of_Z. apply Qle_bool_iff. Qed.

Lemma ge_Fin_false (x : Q) (z : Z) :
  Js.ge (Js.Fin x) (Js.of_Z z) = false <-> x < inject_Z z.
Proof.
  unfold Js.ge, Js.of_Z. split; intro H.
  - apply Qnot_le_lt. intro L. apply Qle_bool_iff in L. congruence.
  - destruct (Qle_bool (inject_Z z) x) eqn:E; [|reflexivity].
    apply Qle_bool_iff in E. exfalso. apply (Qlt_not_le _ _ H E).
Qed.

(** ** Rarity *)

(** C7. The rarity function maps a value of at least 1000 to legendary, a
    value from 100 up to 1000 (excluded) to epic, a value from 10 up to 100
    (excluded) to rare and a value below 10 to common; 1000, 100 and 10
    themselves belong to the higher tier. *)
Theorem getRarityFromValue_tiers (v : Q) :
  (1000 <= v -> getRarityFromValue (Js.Fin v) = legendary)
  /\ (100 <= v -> v < 1000 -> getRarityFromValue (Js.Fin v) = epic)
  /\ (10 <= v -> v < 100 -> getRarityFromValue (Js.Fin v) = rare)
  /\ (v < 10 -> getRarityFromValue (Js.Fin v) = common)
  /\ getRarityFromValue (Js.of_Z 1000) = legendary
  /\ getRarityFromValue (Js.of_Z 100) = epic
  /\ getRarityFromValue (Js.of_Z 10) = rare.
Proof.
  assert (T : forall z, Js.ge (Js.Fin v) (Js.of_Z z) = true <-> inject_Z z <= v)
    by (intro z; apply ge_Fin).
  assert (F : forall z, Js.ge (Js.Fin v) (Js.of_Z z) = false <-> v < inject_Z z)
    by (intro z; apply ge_Fin_false).
  unfold getRarityFromValue.
  repeat split; try reflexivity.
  - intro H. apply (T 1000%Z) in H. now rewrite H.
  - intros H1 H2. apply (T 100%Z) in H1. apply (F 1000%Z) in H2.
    now rewrite H2, H1.
  - intros H1 H2. apply (T 10%Z) in H1. apply (F 100%Z) in H2.
    assert (H3 : Js.ge (Js.Fin v) (Js.of_Z 1000) = false).
    { apply F. apply F in H2. apply Qlt_trans with (inject_Z 100); [exact H2|].
      rewrite <- Zlt_Qlt. lia. }
    now rewrite H3, H2, H1.
  - intro H.
    assert (H1 : Js.ge (Js.Fin v) (Js.of_Z 10) = false) by (apply F; exact H).
    assert (H2 : Js.ge (Js.Fin v) (Js.of_Z 100) = false).
    { apply F. apply Qlt_trans with (inject_Z 10); [exact H|].
      rewrite <- Zlt_Qlt. lia. }
    assert (H3 : Js.ge (Js.Fin v) (Js.of_Z 1000) = false).
    { apply F. apply Qlt_trans with (inject_Z 10); [exact H|].
      rewrite <- Zlt_Qlt. lia. }
    now rewrite H3, H2, H1.
Qed.

Lemma getRarityFromValue_tiers_witness :
  getRarityFromValue (Js.Fin 1500) = legendary
  /\ getRarityFromValue (Js.Fin 250) = epic
  /\ getRarityFromValue (Js.Fin (25 # 2)) = rare
  /\ getRarityFromValue (Js.Fin (19 # 2)) = common.
Proof.
  split; [|split; [|split]].
  - apply (proj1 (getRarityFromValue_tiers 1500)). unfold Qle; simpl; lia.
  - apply (proj1 (proj2 (getRarityFromValue_tiers 250))).
    + unfold Qle; simpl; lia.
    + unfold Qlt; simpl; lia.
  - apply (proj1 (proj2 (proj2 (getRarityFromValue_tiers (25 # 2))))).
    + unfold Qle; simpl; lia.
    + unfold Qlt; simpl; lia.
  - apply (proj1 (proj2 (proj2 (proj2 (getRarityFromValue_tiers (19 # 2)))))).
    unfold Qlt; simpl; lia.
Defined.

(** Values that are not finite: the comparisons of the source send NaN and
    minus infinity to common, plus infinity to legendary. *)
Lemma getRarityFromValue_not_finite :
  getRarityFromValue Js.NaN = common
  /\ getRarityFromValue Js.NegInfinity = common
  /\ getRarityFromValue Js.PosInfinity = legendary.
Proof. repeat split. Qed.

(** ** Shuffle *)

Lemma insert_at_Permutation {A : Type} (n : nat) (x : A) (l : list A) :
  Permutation (insert_at n x l) (x :: l).
Proof.
  revert n. induction l as [|y l IH]; intros [|n]; simpl; try reflexivity.
  rewrite IH. apply perm_swap.
Qed.

Lemma shuffle_Permutation {A : Type} (draws : list nat) (l : list A) :
  Permutation (shuffle draws l) l.
Proof.
  revert draws. induction l as [|x l IH]; intros [|d ds]; simpl; try reflexivity.
  - apply perm_skip, IH.
  - rewrite insert_at_Permutation. apply perm_skip, IH.
Qed.

Lemma insert_at_middle {A : Type} (x : A) (l1 l2 : list A) :
  insert_at (List.length l1) x (l1 ++ l2)%list = (l1 ++ x :: l2)%list.
Proof.
  induction l1 as [|y l1 IH]; simpl.
  - destruct l2; reflexivity.
  - now rewrite IH.
Qed.

(** Every rearrangement of the array is produced by some draws. *)
Lemma shuffle_onto {A : Type} (l l' : list A) :
  Permutation l l' -> exists draws, shuffle draws l = l'.
Proof.
  revert l'. induction l as [|x l IH]; intros l' P.
  - apply Permutation_nil in P. subst. now exists [].
  - assert (I : In x l') by (apply (Permutation_in _ P); now left).
    apply in_split in I. destruct I as (l1 & l2 & ->).
    apply Permutation_cons_app_inv in P.
    destruct (IH _ P) as (ds & E).
    exists (List.length l1 :: ds). simpl. rewrite E. apply insert_at_middle.
Qed.

(** ** Expansion *)

Lemma decimal_inj (a b : nat) : decimal a = decimal b -> a = b.
Proof.
  unfold decimal. intro E.
  assert (U : Some (Nat.to_uint a) = Some (Nat.to_uint b)).
  { rewrite <- (NilEmpty.usu (Nat.to_uint a)), <- (NilEmpty.usu (Nat.to_uint b)).
    now rewrite E. }
  injection U as U.
  rewrite <- (Unsigned.of_to a), <- (Unsigned.of_to b). now rewrite U.
Qed.

Lemma append_inv_head (s a b : string) : s ++ a = s ++ b -> a = b.
Proof.
  induction s as [|c s IH]; simpl; intro E; [exact E|].
  injection E as E. now apply IH.
Qed.

Lemma cell_id_inj (prize : Prize.t) (r : Rarity) (i j : nat) :
  RouletteItem.id (cell prize r i) = RouletteItem.id (cell prize r j) -> i = j.
Proof.
  simpl. intro E. apply append_inv_head in E. injection E as E.
  now apply decimal_inj.
Qed.

Lemma expand_length (prize : Prize.t) :
  List.length (expand prize) = repetitions (prize_rarity prize).
Proof. unfold expand. now rewrite length_map, length_seq. Qed.

Lemma expand_ids_NoDup (prize : Prize.t) :
  NoDup (map RouletteItem.id (expand prize)).
Proof.
  unfold expand. rewrite map_map.
  apply Finite.Injective_map_NoDup_in.
  - intros i j _ _ E. apply (cell_id_inj prize (prize_rarity prize)). exact E.
  - apply seq_NoDup.
Qed.

Lemma expand_cells (prize : Prize.t) (c : RouletteItem.t) :
  In c (expand prize) ->
  RouletteItem.rarity c = prize_rarity prize
  /\ RouletteItem.type c = Prize.type prize
  /\ RouletteItem.isWinning c = None.
Proof.
  unfold expand. rewrite in_map_iff. intros (i & <- & _). repeat split.
Qed.

Lemma generate_Permutation (draws : list nat) (prizes : list Prize.t) :
  Permutation (generateRouletteItems draws prizes) (flat_map expand prizes).
Proof. apply shuffle_Permutation. Qed.

Lemma flat_map_expand_length (prizes : list Prize.t) :
  List.length (flat_map expand prizes)
  = list_sum (map (fun p => repetitions (prize_rarity p)) prizes).
Proof.
  induction prizes as [|p ps IH]; simpl; [reflexivity|].
  now rewrite length_app, expand_length, IH.
Qed.

Lemma generate_length (draws : list nat) (prizes : list Prize.t) :
  List.length (generateRouletteItems draws prizes)
  = list_sum (map (fun p => repetitions (prize_rarity p)) prizes).
Proof.
  rewrite (Permutation_length (generate_Permutation draws prizes)).
  apply flat_map_expand_length.
Qed.

Lemma generate_unflagged (draws : list nat) (prizes : list Prize.t) :
  Forall unflagged (generateRouletteItems draws prizes).
Proof.
  apply Forall_forall. intros c I.
  apply (Permutation_in _ (generate_Permutation draws prizes)) in I.
  apply in_flat_map in I. destruct I as (p & _ & I).
  now apply expand_cells in I.
Qed.

(** C5. Whatever the shuffle does, the reel consists of the cells of each
    prize of the catalogue; a prize yields as many cells as the table
    gives for its rarity (common 8, rare 4, epic 2, legendary 1), with
    pairwise different identifiers and each carrying that rarity; the reel
    of a common prize and a legendary prize has 9 cells. *)
Theorem expansion_follows_repetition_table (draws : list nat) (prizes : list Prize.t) :
  Permutation (generateRouletteItems draws prizes) (flat_map expand prizes)
  /\ (forall p, List.length (expand p) = repetitions (prize_rarity p)
                /\ NoDup (map RouletteItem.id (expand p))
                /\ Forall (fun c => RouletteItem.rarity c = prize_rarity p) (expand p))
  /\ List.length (generateRouletteItems draws prizes)
     = list_sum (map (fun p => repetitions (prize_rarity p)) prizes)
  /\ (repetitions common = 8 /\ repetitions rare = 4
      /\ repetitions epic = 2 /\ repetitions legendary = 1)%nat
  /\ (forall p1 p2,
         prize_rarity p1 = common -> prize_rarity p2 = legendary ->
         List.length (generateRouletteItems draws [p1; p2]) = 9%nat).
Proof.
  split; [apply generate_Permutation|].
  split.
  { intro p. split; [apply expand_length|]. split; [apply expand_ids_NoDup|].
    apply Forall_forall. intros c I. now apply expand_cells in I. }
  split; [apply generate_length|].
  split; [repeat split|].
  intros p1 p2 H1 H2. rewrite generate_length. simpl. now rewrite H1, H2.
Qed.

Lemma expansion_follows_repetition_table_witness :
  List.length
    (generateRouletteItems [3; 1; 4; 1; 5]%nat
       [Scenario.money "p1" "5" true; Scenario.money "p2" "1500" true]) = 9%nat.
Proof.
  apply (proj2 (proj2 (proj2 (proj2
    (expansion_follows_repetition_table [3; 1; 4; 1; 5]%nat []))))); reflexivity.
Defined.

(** C4, the claim as written, fails: a catalogue whose only prize is
    inactive expands to eight cells. *)
Lemma inactive_prize_is_expanded :
  Forall (fun p => Prize.is_active p = false) [Scenario.money "p1" "5" false]
  /\ List.length (generateRouletteItems [] [Scenario.money "p1" "5" false]) = 8%nat
  /\ generateRouletteItems [] [Scenario.money "p1" "5" false] <> [].
Proof.
  split; [repeat constructor|]. split; [reflexivity|]. discriminate.
Qed.

(** The rarity of the reel is read from [value] first, whatever the
    category: a product whose [value] is 5 and whose redemption value is
    1500 is common on the reel, and legendary in the prize grid of the same
    page and for the specification. *)
Lemma reel_rarity_ignores_category :
  prize_rarity (Scenario.product "p1" "5" "1500") = common
  /\ getRarityFromValue (Js.parseFloat (grid_value (Scenario.product "p1" "5" "1500")))
     = legendary
  /\ getRarityFromValue (spec_effective_value (Scenario.product "p1" "5" "1500"))
     = legendary.
Proof. repeat split. Qed.

Lemma prize_rarity_by_category (p : Prize.t) :
  (Prize.type p = "MONEY" /\ Prize.value p <> "")
  \/ (Prize.type p <> "MONEY" /\ Prize.value p = "") ->
  prize_rarity p = getRarityFromValue (spec_effective_value p).
Proof.
  unfold prize_rarity, spec_effective_value, effective_value.
  intros [[T V] | [T V]].
  - rewrite T. simpl. destruct (Prize.value p) as [|c s] eqn:E; [congruence|].
    simpl. now destruct (Js.parseFloat (String c s)).
  - apply String.eqb_neq in T. rewrite T, V. simpl.
    destruct (Prize.redemption_value p) as [[|c s]|]; simpl; try reflexivity.
    now destruct (Js.parseFloat (String c s)).
Qed.

(** C4, amended. Every prize of the catalogue, active or not, contributes
    its cells to the reel; for a MONEY prize with a non-empty value field,
    and for a prize of another category with an empty value field, the
    rarity of its cells is the rarity of its category's value, a missing or
    unparseable value counting as 0; the empty catalogue yields the empty
    reel. *)
Theorem expander_covers_whole_catalogue (draws : list nat) (prizes : list Prize.t) :
  Permutation (generateRouletteItems draws prizes) (flat_map expand prizes)
  /\ (forall p, In p prizes ->
        expand p <> []
        /\ incl (expand p) (generateRouletteItems draws prizes))
  /\ (forall p,
        (Prize.type p = "MONEY" /\ Prize.value p <> "")
        \/ (Prize.type p <> "MONEY" /\ Prize.value p = "") ->
        forall c, In c (expand p) ->
        RouletteItem.rarity c = getRarityFromValue (spec_effective_value p))
  /\ generateRouletteItems draws [] = [].
Proof.
  split; [apply generate_Permutation|].
  split; [|split; [|reflexivity]].
  - intros p I. split.
    + intro E. pose proof (expand_length p) as L. rewrite E in L.
      destruct (prize_rarity p); discriminate.
    + intros c Ic.
      apply (Permutation_in _ (Permutation_sym (generate_Permutation draws prizes))).
      apply in_flat_map. now exists p.
  - intros p H c Ic. apply expand_cells in Ic. destruct Ic as (R & _).
    rewrite R. now apply prize_rarity_by_category.
Qed.

Lemma expander_covers_whole_catalogue_witness :
  incl (expand (Scenario.money "p1" "5" false))
       (generateRouletteItems [2]%nat [Scenario.money "p1" "5" false])
  /\ (forall c, In c (expand (Scenario.money "p1" "5" false)) ->
        RouletteItem.rarity c
        = getRarityFromValue (spec_effective_value (Scenario.money "p1" "5" false))).
Proof.
  pose proof (expander_covers_whole_catalogue [2]%nat [Scenario.money "p1" "5" false])
    as (_ & H1 & H2 & _).
  split.
  - apply (H1 (Scenario.money "p1" "5" false)). now left.
  - apply (H2 (Scenario.money "p1" "5" false)). left. split; [reflexivity|discriminate].
Defined.

(** ** Random pick *)

Lemma random_range (u : Q) : 0 <= random u /\ random u < 1.
Proof.
  unfold random. pose proof (Qfloor_le u) as L. pose proof (Qlt_floor u) as U.
  rewrite inject_Z_plus in U. change (inject_Z 1) with 1 in U. split; lra.
Qed.

Lemma Qfloor_spec (x : Q) (z : Z) :
  Qfloor x = z <-> inject_Z z <= x /\ x < inject_Z z + 1.
Proof.
  split.
  - intros <-. split; [apply Qfloor_le|].
    pose proof (Qlt_floor x) as U. rewrite inject_Z_plus in U. exact U.
  - intros [L U]. apply Z.le_antisymm.
    + apply Z.lt_succ_r. rewrite Zlt_Qlt. unfold Z.succ. rewrite inject_Z_plus.
      apply Qle_lt_trans with x; [apply Qfloor_le|exact U].
    + rewrite <- (Qfloor_Z z). now apply Qfloor_resp_le.
Qed.

Lemma random_index_spec (u : Q) (n j : nat) :
  random_index u n = j <->
  inject_Z (Z.of_nat j) <= random u * inject_Z (Z.of_nat n)
  /\ random u * inject_Z (Z.of_nat n) < inject_Z (Z.of_nat j) + 1.
Proof.
  unfold random_index. rewrite <- Qfloor_spec.
  assert (P : (0 <= Qfloor (random u * inject_Z (Z.of_nat n)))%Z).
  { rewrite <- (Qfloor_Z 0). apply Qfloor_resp_le.
    apply Qmult_le_0_compat; [apply random_range|].
    change 0 with (inject_Z 0). rewrite <- Zle_Qle. lia. }
  split; intro H; lia.
Qed.

Lemma random_index_lt (u : Q) (n : nat) : (0 < n)%nat -> (random_index u n < n)%nat.
Proof.
  intro Hn.
  destruct (proj1 (random_index_spec u n (random_index u n)) eq_refl) as [L _].
  destruct (random_range u) as [_ U].
  assert (N : 0 < inject_Z (Z.of_nat n)).
  { change 0 with (inject_Z 0). rewrite <- Zlt_Qlt. lia. }
  assert (M : random u * inject_Z (Z.of_nat n) < inject_Z (Z.of_nat n)).
  { rewrite <- (Qmult_1_l (inject_Z (Z.of_nat n))) at 2.
    apply Qmult_lt_compat_r; assumption. }
  pose proof (Qle_lt_trans _ _ _ L M) as K.
  rewrite <- Zlt_Qlt in K. lia.
Qed.

(** ** Reconciliation *)

Lemma find_index_Some {A : Type} (f : A -> bool) (l : list A) (i : nat) :
  find_index f l = Some i ->
  exists x, nth_error l i = Some x /\ f x = true
            /\ forall j y, (j < i)%nat -> nth_error l j = Some y -> f y = false.
Proof.
  revert i. induction l as [|x l IH]; simpl; intros i H; [discriminate|].
  destruct (f x) eqn:Fx.
  - injection H as <-. exists x. repeat split; trivial. intros j y Hj. lia.
  - destruct (find_index f l) as [k|]; [|discriminate].
    injection H as <-. destruct (IH k eq_refl) as (z & N & Fz & First).
    exists z. repeat split; trivial.
    intros [|j] y Hj Hy; simpl in Hy.
    + injection Hy as <-. exact Fx.
    + apply (First j); [lia|exact Hy].
Qed.

Lemma find_index_None {A : Type} (f : A -> bool) (l : list A) :
  find_index f l = None -> forall x, In x l -> f x = false.
Proof.
  induction l as [|y l IH]; simpl; intros H x I; [contradiction|].
  destruct (f y) eqn:Fy; [discriminate|].
  destruct (find_index f l); [discriminate|].
  destruct I as [<-|I]; [exact Fy|now apply IH].
Qed.

Lemma mark_at_nth (i : nat) (l : list RouletteItem.t) (c : RouletteItem.t) :
  nth_error l i = Some c -> nth_error (mark_at i l) i = Some (RouletteItem.mark c).
Proof.
  revert i. induction l as [|x l IH]; intros [|i]; simpl; try discriminate.
  - now intros [= ->].
  - apply IH.
Qed.

Lemma mark_at_In (i : nat) (l : list RouletteItem.t) (c : RouletteItem.t) :
  In c (mark_at i l) ->
  In c l \/ exists c0, nth_error l i = Some c0 /\ c = RouletteItem.mark c0.
Proof.
  revert i. induction l as [|x l IH]; intros [|i]; simpl; try tauto.
  - intros [<-|I]; [right; now exists x|left; now right].
  - intros [<-|I]; [left; now left|].
    destruct (IH i I) as [I'|(c0 & N & E)]; [left; now right|right; now exists c0].
Qed.

(** What the winner branch does when [find] succeeds: the first cell that
    satisfies the predicate of the source is flagged and becomes the
    target. *)
Lemma reconcile_found (u : Q) (result : GameResult.t) (prize : GamePrize.t)
      (items : list RouletteItem.t) (i : nat) :
  GameResult.isWinner result = true ->
  GameResult.prize result = Some prize ->
  find_index (matches prize) items = Some i ->
  exists c,
    nth_error items i = Some c
    /\ matches prize c = true
    /\ (forall j y, (j < i)%nat -> nth_error items j = Some y -> matches prize y = false)
    /\ items_after (reconcile u result items) = mark_at i items
    /\ targetItem (reconcile u result items) = Some (RouletteItem.mark c)
    /\ winning_set (reconcile u result items) = Some (RouletteItem.mark c).
Proof.
  intros W P F. destruct (find_index_Some _ _ _ F) as (c & N & M & First).
  exists c. unfold reconcile. rewrite W, P, F. simpl.
  rewrite (mark_at_nth _ _ _ N). repeat split; trivial.
Qed.

(** The winner branch when [find] fails: no target, no flag. *)
Lemma reconcile_not_found (u : Q) (result : GameResult.t) (prize : GamePrize.t)
      (items : list RouletteItem.t) :
  GameResult.isWinner result = true ->
  GameResult.prize result = Some prize ->
  find_index (matches prize) items = None ->
  reconcile u result items
  = {| items_after := items; targetItem := None; winning_set := None |}.
Proof. intros W P F. unfold reconcile. now rewrite W, P, F. Qed.

Lemma reconcile_loss (u : Q) (result : GameResult.t) (items : list RouletteItem.t) :
  GameResult.isWinner result = false \/ GameResult.prize result = None ->
  items_after (reconcile u result items) = items
  /\ winning_set (reconcile u result items) = None.
Proof.
  unfold reconcile. intros [H|H]; rewrite H.
  - now split.
  - now destruct (GameResult.isWinner result).
Qed.

(** C6. On a losing result the reel is left as it is and, when it has
    common cells, the target is the common cell of index
    [floor(random * n)] among the [n] common cells: a cell of the reel of
    common rarity, each of the [n] cells being chosen for the draws of one
    interval of length [1/n]; without common cells the target is the first
    cell of the reel. *)
Theorem loss_lands_on_common_cell (u : Q) (result : GameResult.t)
        (items : list RouletteItem.t) :
  GameResult.isWinner result = false ->
  let r := reconcile u result items in
  let commons := filter is_common items in
  let n := List.length commons in
  items_after r = items
  /\ winning_set r = None
  /\ (commons <> [] ->
      exists c, targetItem r = Some c
                /\ In c items
                /\ RouletteItem.rarity c = common
                /\ nth_error commons (random_index u n) = Some c)
  /\ (0 <= random u /\ random u < 1)
  /\ (forall j, random_index u n = j <->
                inject_Z (Z.of_nat j) <= random u * inject_Z (Z.of_nat n)
                /\ random u * inject_Z (Z.of_nat n) < inject_Z (Z.of_nat j) + 1)
  /\ (commons = [] -> targetItem r = hd_error items).
Proof.
  intros L r commons n.
  split; [apply reconcile_loss; now left|].
  split; [apply reconcile_loss; now left|].
  split; [|split; [apply random_range|split; [intro j; apply random_index_spec|]]].
  - intro NE.
    assert (Hn : (0 < n)%nat).
    { subst n. destruct commons; [congruence|simpl; lia]. }
    pose proof (random_index_lt u n Hn) as B.
    destruct (nth_error commons (random_index u n)) as [c|] eqn:N.
    + exists c. subst r. unfold reconcile. rewrite L.
      fold commons. fold n. rewrite N. simpl.
      apply nth_error_In in N. unfold commons in N. apply filter_In in N.
      destruct N as [I C]. repeat split; trivial.
      unfold is_common in C. now destruct (RouletteItem.rarity c).
    + apply nth_error_None in N. fold n in N. lia.
  - intro E. subst r. unfold reconcile. rewrite L. fold commons. rewrite E.
    simpl. now destruct (random_index u 0).
Qed.

Lemma loss_lands_on_common_cell_witness :
  exists c,
    targetItem (reconcile (7 # 10) Scenario.lost
                  (generateRouletteItems [] [Scenario.money "p1" "5" true;
                                             Scenario.money "p2" "1500" true]))
    = Some c
    /\ RouletteItem.rarity c = common.
Proof.
  pose proof (loss_lands_on_common_cell (7 # 10) Scenario.lost
                (generateRouletteItems [] [Scenario.money "p1" "5" true;
                                           Scenario.money "p2" "1500" true])
                eq_refl) as (_ & _ & H & _).
  destruct H as (c & T & _ & R & _); [discriminate|].
  exists c. now split.
Defined.

(** C2 fails on the code: a won product whose [value] field is not empty
    and differs from its redemption value is compared through [value],
    while the cells carry the redemption value.  Here the four cells of the
    reel all agree with the prize on category and on the value the category
    designates, and no target is found. *)
Theorem won_product_is_not_found :
  let prize :=
    GamePrize.Build "p1" "Produto" "PRODUCT" "10" (Some "Fone") (Some "50") "" in
  let items := generateRouletteItems [] [Scenario.product "p1" "10" "50"] in
  GameResult.isWinner (Scenario.won_product "10" "50") = true
  /\ GameResult.prize (Scenario.won_product "10" "50") = Some prize
  /\ List.length items = 4%nat
  /\ forallb (exact_match prize) items = true
  /\ reconcile 0 (Scenario.won_product "10" "50") items
     = {| items_after := items; targetItem := None; winning_set := None |}.
Proof.
  cbv zeta. repeat apply conj; vm_compute; reflexivity.
Qed.

(** ** The session invariant *)

Section SessionInvariant.
Import RouletteBoxPage Invariant.

Lemma spins_app (l : list Timer) (t : Timer) :
  spins (l ++ [t]) = (spins l + (if is_spin_end t then 1 else 0))%nat.
Proof.
  unfold spins. rewrite filter_app, length_app. simpl.
  now destruct (is_spin_end t).
Qed.

Lemma spins_split (f : Timer -> bool) (l : list Timer) :
  (spins (filter f l) + spins (filter (fun t => negb (f t)) l))%nat = spins l.
Proof.
  unfold spins. induction l as [|t l IH]; simpl; [reflexivity|].
  destruct (f t), (is_spin_end t) eqn:E; simpl; rewrite ?E; simpl; lia.
Qed.

Ltac open_world w :=
  destruct w as [[au tk rid sc] [gs ri scf hw tw gr pg wi isp sd fr] t a tm ef];
  simpl in *.

Lemma spinEnd_facts (c : Closure) (w : World) :
  gameState (state (spinEnd c w)) = completed
  /\ awaiting (spinEnd c w) = awaiting w
  /\ spins (timers (spinEnd c w)) = spins (timers w)
  /\ rouletteItems (state (spinEnd c w)) = rouletteItems (state w)
  /\ winningItem (state (spinEnd c w)) = winningItem (state w)
  /\ (forall a b, In (PlayRequest a b) (effects (spinEnd c w)) ->
                  In (PlayRequest a b) (effects w)).
Proof.
  open_world w. unfold spinEnd, refreshUserBalance. simpl.
  destruct (gameResult (seen c)) as [r|]; [destruct (GameResult.isWinner r)|];
    destruct tk as [[|x y]|]; simpl; rewrite ?spins_app; simpl;
    repeat split; try lia; intros p q I; try exact I;
    apply in_app_or in I; destruct I as [I|[I|[]]]; trivial; discriminate.
Qed.

Lemma run_callback_Inv (tm : Timer) (extra : list Timer) (w : World) :
  Inv (tm :: extra) w -> Inv extra (run_callback (callback tm) w).
Proof.
  destruct tm as [d [c|]]; simpl.
  - destruct (spinEnd_facts c w) as (G & A & S & _).
    unfold Inv. rewrite G, A, S.
    unfold spins at 1 3 5 7. simpl. fold (spins extra).
    destruct (gameState (state w)); intros [H1 H2];
      try (exfalso; lia); try (exfalso; destruct H2 as [H2 _]; lia).
    split; [exact H1|lia].
  - unfold Inv, clean. simpl. unfold spins at 1 3 5 7. simpl. fold (spins extra).
    destruct (gameState (state w)); intro H; intuition.
Qed.

Lemma fold_callbacks_Inv (ready extra : list Timer) (w : World) :
  Inv (ready ++ extra) w ->
  Inv extra (fold_left (fun w' tm => run_callback (callback tm) w') ready w).
Proof.
  revert w. induction ready as [|tm ready IH]; simpl; intros w H; [exact H|].
  apply IH. now apply run_callback_Inv.
Qed.

Lemma tick_Inv (w : World) : Inv [] w -> Inv [] (tick w).
Proof.
  intro H. unfold tick. apply fold_callbacks_Inv. rewrite app_nil_r.
  unfold Inv in *. simpl in *.
  rewrite (spins_split (fun tm => (due tm <=? now w + 1)%Z) (timers w)).
  exact H.
Qed.

Lemma handleOpenBox_failed_Inv (m : option string) (w : World) :
  awaiting w = None -> spins (timers w) = 0%nat -> clean (state w) ->
  Inv [] (handleOpenBox_failed m w).
Proof.
  intros A S C. unfold Inv, handleOpenBox_failed. simpl.
  repeat split; try assumption; apply C.
Qed.

Lemma handleOpenBox_Inv (seen : State) (w : World) :
  Inv [] w ->
  awaiting w = None -> spins (timers w) = 0%nat ->
  rouletteItems (state w) = [] -> isSpinning (state w) = false ->
  finalRotation (state w) = 0%Z ->
  Inv [] (handleOpenBox seen w).
Proof.
  intros I A S R Sp F. unfold handleOpenBox.
  destruct (scratchCardData (props w)) as [data|]; [|exact I].
  destruct (negb (isAuthenticated (props w)) || playingGame seen); [exact I|].
  destruct (id (props w)) as [[|x y]|], (token (props w)) as [[|x' y']|]; simpl;
    try (apply handleOpenBox_failed_Inv; simpl; unfold clean; simpl; now repeat split).
  unfold Inv, clean. simpl. repeat split; trivial. discriminate.
Qed.

Lemma handlePlayAgain_Inv (seen : State) (w : World) :
  Inv [] w -> gameState (state w) = completed ->
  awaiting w = None -> spins (timers w) = 0%nat ->
  Inv [] (handlePlayAgain seen w).
Proof.
  intros I G A S. unfold handlePlayAgain.
  destruct (scratchCardData (props w)) as [data|]; [|exact I].
  destruct (negb (isAuthenticated (props w)) || playingGame seen); [exact I|].
  apply handleOpenBox_Inv; trivial.
  unfold Inv. cbn [state gameState upd setFinalRotation setIsSpinning
    setWinningItem setGameResult setTotalWinnings setHasWon setShowConfetti
    setRouletteItems awaiting timers].
  rewrite G. now split.
Qed.

Lemma startRouletteSpin_facts (c : Closure) (target : option RouletteItem.t)
      (items : list RouletteItem.t) (w : World) :
  let w' := startRouletteSpin c target items w in
  gameState (state w') = gameState (state w)
  /\ awaiting w' = awaiting w
  /\ (spins (timers w') <= spins (timers w) + 1)%nat
  /\ rouletteItems (state w') = rouletteItems (state w)
  /\ winningItem (state w') = winningItem (state w)
  /\ effects w' = effects w.
Proof.
  unfold startRouletteSpin. destruct target as [t|]; simpl.
  - destruct (List.length items =? 0)%nat; simpl; rewrite ?spins_app; simpl;
      repeat split; lia.
  - repeat split; lia.
Qed.

Lemma handleOpenBox_spin_facts (c : Closure) (d : Draws) (r : GameResult.t)
      (w : World) :
  let w' := handleOpenBox_spin c d r w in
  let rc := reconcile (pick_draw d) r
              (generateRouletteItems (sort_draws d) (ScratchCardData.prizes (card c))) in
  gameState (state w') = spinning
  /\ awaiting w' = awaiting w
  /\ (spins (timers w') <= spins (timers w) + 1)%nat
  /\ rouletteItems (state w') = items_after rc
  /\ winningItem (state w')
     = match winning_set rc with Some it => Some it | None => winningItem (state w) end
  /\ effects w' = effects w.
Proof.
  unfold handleOpenBox_spin.
  set (rc := reconcile _ _ _).
  match goal with
  | |- context [startRouletteSpin c ?t ?i ?x] =>
      destruct (startRouletteSpin_facts c t i x) as (G & A & S & R & W & E)
  end.
  cbv zeta. rewrite G, A, R, W, E.
  destruct (winning_set rc); simpl; repeat split; exact S.
Qed.

Lemma handleOpenBox_resume_Inv (c : Closure) (o : FetchOutcome) (d : Draws)
      (w : World) :
  spins (timers w) = 0%nat -> clean (state w) ->
  Inv [] (handleOpenBox_resume c o d w).
Proof.
  intros S C. unfold handleOpenBox_resume.
  destruct (result (playGame_return o)) as [r|].
  - match goal with
    | |- Inv [] (handleOpenBox_spin c d r ?x) =>
        destruct (handleOpenBox_spin_facts c d r x) as (G & A & T & _)
    end.
    unfold Inv. rewrite G, A. simpl in *. split; [reflexivity|]. lia.
  - apply handleOpenBox_failed_Inv; simpl; trivial.
Qed.

Lemma step_Inv (w : World) (e : Event) : Inv [] w -> Inv [] (step w e).
Proof.
  intro I. destruct e as [| |o d|]; simpl.
  - destruct (open_box_button w) eqn:B; [|exact I].
    unfold open_box_button in B. apply andb_prop in B. destruct B as [B _].
    unfold Inv in I. destruct (gameState (state w)) eqn:G; try discriminate.
    destruct I as (A & S & C). simpl in S.
    apply handleOpenBox_Inv; trivial; try apply C.
    unfold Inv. rewrite G. split; [exact A|]. split; [exact S|exact C].
  - destruct (play_again_button w) eqn:B; [|exact I].
    unfold play_again_button in B. apply andb_prop in B. destruct B as [B _].
    apply andb_prop in B. destruct B as [B _].
    pose proof I as I'.
    unfold Inv in I. destruct (gameState (state w)) eqn:G; try discriminate.
    destruct I as (A & S). simpl in S.
    apply handlePlayAgain_Inv; trivial.
  - destruct (awaiting w) as [c|] eqn:A; [|exact I].
    unfold Inv in I. destruct (gameState (state w)); try (destruct I; congruence).
    destruct I as (_ & S & C). simpl in S.
    now apply handleOpenBox_resume_Inv.
  - now apply tick_Inv.
Qed.

Lemma reachable_Inv (p : Props) (w : World) : reachable p w -> Inv [] w.
Proof.
  induction 1 as [|w e R IH].
  - unfold Inv, clean. simpl. now repeat split.
  - now apply step_Inv.
Qed.

Lemma wait_Inv (n : N) (w : World) : Inv [] w -> Inv [] (wait n w).
Proof.
  intro I. unfold wait. induction n as [|n IH] using N.peano_ind; [exact I|].
  rewrite N.iter_succ. now apply tick_Inv.
Qed.

End SessionInvariant.

(** ** Runs and time *)

Section Runs.
Import RouletteBoxPage Invariant.

Lemma reachable_run (p : Props) (w : World) (es : list Event) :
  reachable p w -> reachable p (run w es).
Proof.
  revert w. unfold run. induction es as [|e es IH]; simpl; intros w R; [exact R|].
  apply IH. now apply reach_step.
Qed.

Lemma reachable_wait (p : Props) (w : World) (n : N) :
  reachable p w -> reachable p (wait n w).
Proof.
  intro R. unfold wait. induction n as [|n IH] using N.peano_ind; [exact R|].
  rewrite N.iter_succ. apply (reach_step p _ Tick). exact IH.
Qed.

Lemma fold_callbacks_ind (P : World -> Prop) :
  (forall cb w, P w -> P (run_callback cb w)) ->
  forall ready w,
    P w -> P (fold_left (fun w' tm => run_callback (callback tm) w') ready w).
Proof.
  intros Step ready. induction ready as [|tm ready IH]; simpl; intros w H; [exact H|].
  apply IH, Step, H.
Qed.

(** A tick changes the state through the callbacks of due timers only. *)
Lemma tick_ind (P : World -> Prop) (w : World) :
  (forall cb w', P w' -> P (run_callback cb w')) ->
  (forall t tm, P (Build_World (props w) (state w) t (awaiting w) tm (effects w))) ->
  P (tick w).
Proof.
  intros Step Start. unfold tick. apply fold_callbacks_ind; [exact Step|apply Start].
Qed.

Lemma tick_keeps_reel (w : World) :
  rouletteItems (state (tick w)) = rouletteItems (state w)
  /\ winningItem (state (tick w)) = winningItem (state w).
Proof.
  apply (tick_ind (fun w' =>
    rouletteItems (state w') = rouletteItems (state w)
    /\ winningItem (state w') = winningItem (state w))).
  - intros [c|] w' [R W]; simpl.
    + destruct (spinEnd_facts c w') as (_ & _ & _ & R' & W' & _).
      now rewrite R', W'.
    + now split.
  - intros t tm. now split.
Qed.

Lemma wait_keeps_reel (n : N) (w : World) :
  rouletteItems (state (wait n w)) = rouletteItems (state w)
  /\ winningItem (state (wait n w)) = winningItem (state w).
Proof.
  unfold wait. induction n as [|n [R W]] using N.peano_ind; [now split|].
  rewrite N.iter_succ.
  destruct (tick_keeps_reel (N.iter n tick w)) as [R' W'].
  now rewrite R', W'.
Qed.

Lemma tick_from_spinning (w : World) :
  gameState (state w) = spinning ->
  (gameState (state (tick w)) = spinning \/ gameState (state (tick w)) = completed)
  /\ (forall a b, In (PlayRequest a b) (effects (tick w)) ->
                  In (PlayRequest a b) (effects w)).
Proof.
  intro G.
  apply (tick_ind (fun w' =>
    (gameState (state w') = spinning \/ gameState (state w') = completed)
    /\ (forall a b, In (PlayRequest a b) (effects w') ->
                    In (PlayRequest a b) (effects w)))).
  - intros [c|] w' [S E]; simpl.
    + destruct (spinEnd_facts c w') as (G' & _ & _ & _ & _ & E').
      split; [now right|]. intros a b I. apply E, E', I.
    + split; [exact S|exact E].
  - intros t tm. simpl. split; [now left|trivial].
Qed.

(** Without timers nothing happens when time passes. *)
Lemma tick_no_timers (w : World) :
  timers w = [] ->
  tick w = Build_World (props w) (state w) (now w + 1)%Z (awaiting w) [] (effects w).
Proof. intro T. unfold tick. now rewrite T. Qed.

Lemma wait_no_timers (n : N) (w : World) :
  timers w = [] -> state (wait n w) = state w /\ timers (wait n w) = [].
Proof.
  intro T. unfold wait. induction n as [|n [S T']] using N.peano_ind; [now split|].
  rewrite N.iter_succ, (tick_no_timers _ T'). simpl. now split.
Qed.

End Runs.

(** ** The reveal delay *)

Section Timing.
Import RouletteBoxPage Invariant.

Lemma spins_cons (tm : Timer) (l : list Timer) :
  spins (tm :: l) = ((if is_spin_end tm then 1 else 0) + spins l)%nat.
Proof. unfold spins. simpl. now destruct (is_spin_end tm). Qed.

Lemma spins_zero_filter (l : list Timer) :
  filter is_spin_end l = [] -> spins l = 0%nat.
Proof. unfold spins. now intros ->. Qed.

Lemma calm_refl (w : World) : calm w w.
Proof. now left. Qed.

Lemma calm_fields (w w' : World) :
  calm w w' ->
  props w' = props w /\ now w' = now w /\ awaiting w' = awaiting w
  /\ timers w' = timers w /\ effects w' = effects w
  /\ gameState (state w') = gameState (state w)
  /\ hasWon (state w') = hasWon (state w)
  /\ totalWinnings (state w') = totalWinnings (state w).
Proof. intros [->| ->]; simpl; now repeat split. Qed.

Lemma fold_confetti (ready : list Timer) :
  spins ready = 0%nat ->
  forall w, calm w (fold_left (fun w' tm => run_callback (callback tm) w') ready w).
Proof.
  induction ready as [|[d [c|]] ready IH]; intros S w; simpl.
  - apply calm_refl.
  - rewrite spins_cons in S. simpl in S. discriminate.
  - rewrite spins_cons in S. simpl in S.
    destruct (IH S (upd (setShowConfetti false) w)) as [E|E]; right; exact E.
Qed.

Lemma filter_swap {A : Type} (f g : A -> bool) (l : list A) :
  filter f (filter g l) = filter g (filter f l).
Proof.
  induction l as [|x l IH]; simpl; [reflexivity|].
  destruct (f x) eqn:F, (g x) eqn:G; simpl; rewrite ?F, ?G, IH; reflexivity.
Qed.

Lemma filter_single {A : Type} (g : A -> bool) (l : list A) (x : A) :
  filter g l = [x] ->
  exists l1 l2, l = (l1 ++ x :: l2)%list /\ filter g l1 = [] /\ filter g l2 = [].
Proof.
  induction l as [|y l IH]; simpl; [discriminate|].
  destruct (g y) eqn:G.
  - intros [= -> E]. exists [], l. simpl. now repeat split.
  - intro E. destruct (IH E) as (l1 & l2 & -> & E1 & E2).
    exists (y :: l1), l2. simpl. rewrite G. now repeat split.
Qed.

(** A tick that is not the due one leaves a spin as it is. *)
Lemma tick_before_due (D : Z) (c : Closure) (w : World) :
  spin_pending D c w -> (now w + 1 < D)%Z ->
  spin_pending D c (tick w)
  /\ now (tick w) = (now w + 1)%Z
  /\ gameState (state (tick w)) = gameState (state w)
  /\ hasWon (state (tick w)) = hasWon (state w)
  /\ totalWinnings (state (tick w)) = totalWinnings (state w).
Proof.
  unfold spin_pending. intros P L. unfold tick.
  set (f := fun tm => (due tm <=? now w + 1)%Z).
  assert (R : spins (filter f (timers w)) = 0%nat).
  { apply spins_zero_filter. rewrite filter_swap, P. simpl.
    unfold f. simpl. destruct (Z.leb_spec D (now w + 1)); [lia|reflexivity]. }
  match goal with
  | |- context [fold_left ?g ?l ?x] =>
      destruct (calm_fields _ _ (fold_confetti l R x)) as (_ & N & _ & T & _ & G & H & W)
  end.
  rewrite N, T, G, H, W. simpl. repeat split.
  rewrite filter_swap, P. simpl.
  unfold f. simpl. destruct (Z.leb_spec D (now w + 1)); [lia|reflexivity].
Qed.

Lemma wait_succ (n : N) (w : World) : wait (N.succ n) w = tick (wait n w).
Proof. unfold wait. apply N.iter_succ. Qed.

Lemma wait_before_due (D : Z) (c : Closure) (n : N) (w : World) :
  spin_pending D c w -> (now w + Z.of_N n < D)%Z ->
  spin_pending D c (wait n w)
  /\ now (wait n w) = (now w + Z.of_N n)%Z
  /\ gameState (state (wait n w)) = gameState (state w)
  /\ hasWon (state (wait n w)) = hasWon (state w)
  /\ totalWinnings (state (wait n w)) = totalWinnings (state w).
Proof.
  intro P. unfold wait. induction n as [|n IH] using N.peano_ind; intro L.
  - simpl. rewrite Z.add_0_r. now repeat split.
  - rewrite N.iter_succ. rewrite N2Z.inj_succ in L |- *.
    destruct IH as (P' & N' & G' & H' & W'); [lia|].
    destruct (tick_before_due D c (N.iter n tick w) P') as (P2 & N2 & G2 & H2 & W2);
      [lia|].
    rewrite N2, G2, H2, W2, N', G', H', W'. repeat split; trivial. lia.
Qed.

Lemma spinEnd_reads_closure (c : Closure) (w : World) :
  hasWon (state (spinEnd c w)) = (closure_winner c || hasWon (state w))%bool
  /\ totalWinnings (state (spinEnd c w))
     = match closure_amount c with
       | Some a => a
       | None => totalWinnings (state w)
       end.
Proof.
  unfold spinEnd, refreshUserBalance, closure_winner, closure_amount.
  destruct (gameResult (seen c)) as [r|]; [destruct (GameResult.isWinner r)|];
    simpl; destruct (token (props w)) as [[|x y]|]; simpl; now split.
Qed.

(** The due tick completes the spin; the win flag and the amount are those
    of the closure. *)
Lemma tick_at_due (D : Z) (c : Closure) (w : World) :
  spin_pending D c w -> (now w + 1 = D)%Z ->
  gameState (state (tick w)) = completed
  /\ hasWon (state (tick w)) = (closure_winner c || hasWon (state w))%bool
  /\ totalWinnings (state (tick w))
     = match closure_amount c with
       | Some a => a
       | None => totalWinnings (state w)
       end.
Proof.
  unfold spin_pending. intros P L. unfold tick.
  set (f := fun tm => (due tm <=? now w + 1)%Z).
  assert (R : filter is_spin_end (filter f (timers w)) = [Build_Timer D (SpinEnd c)]).
  { rewrite filter_swap, P. simpl. unfold f. simpl.
    destruct (Z.leb_spec D (now w + 1)); [reflexivity|lia]. }
  destruct (filter_single _ _ _ R) as (l1 & l2 & E & E1 & E2).
  rewrite E, fold_left_app. simpl.
  match goal with
  | |- context [spinEnd c (fold_left ?g l1 ?x)] =>
      pose proof (calm_fields _ _ (fold_confetti l1 (spins_zero_filter _ E1) x))
        as (_ & _ & _ & _ & _ & _ & H1 & W1);
      set (w1 := fold_left g l1 x) in *
  end.
  destruct (calm_fields _ _ (fold_confetti l2 (spins_zero_filter _ E2) (spinEnd c w1)))
    as (_ & _ & _ & _ & _ & G2 & H2 & W2).
  destruct (spinEnd_facts c w1) as (G & _).
  destruct (spinEnd_reads_closure c w1) as (H & W).
  rewrite G2, H2, W2, G, H, W, H1, W1. simpl. now repeat split.
Qed.

Lemma reconcile_target_nonempty (u : Q) (r : GameResult.t)
      (items : list RouletteItem.t) (t : RouletteItem.t) :
  targetItem (reconcile u r items) = Some t ->
  (List.length (items_after (reconcile u r items)) =? 0)%nat = false.
Proof.
  unfold reconcile.
  destruct (GameResult.isWinner r); [destruct (GameResult.prize r) as [prize|]|].
  - destruct (find_index (matches prize) items) as [i|]; simpl; [|discriminate].
    intro T. destruct (mark_at i items); [now destruct i|reflexivity].
  - simpl. destruct items; [|reflexivity]. simpl. now destruct (random_index u 0).
  - simpl. destruct items; [|reflexivity]. simpl. now destruct (random_index u 0).
Qed.

(** A spin with a target, in general: the answer arrives in a session
    waiting for it; the state is [spinning] for the next 3999 ms and
    [completed] at 4000 ms; at that moment the win flag and the amount are
    those of the result held by the closure of the click, whatever the
    answer was. *)
Lemma spin_reveal (p : Props) (w : World) (c : Closure) (o : FetchOutcome)
      (d : Draws) (r : GameResult.t) (t : RouletteItem.t) :
  reachable p w ->
  awaiting w = Some c ->
  result (playGame_return o) = Some r ->
  targetItem (reconcile (pick_draw d) r
                (generateRouletteItems (sort_draws d) (ScratchCardData.prizes (card c))))
  = Some t ->
  (forall n, (n < 4000)%N ->
             gameState (state (wait n (step w (PlaySettled o d)))) = spinning)
  /\ gameState (state (wait 4000 (step w (PlaySettled o d)))) = completed
  /\ hasWon (state (wait 4000 (step w (PlaySettled o d)))) = closure_winner c
  /\ totalWinnings (state (wait 4000 (step w (PlaySettled o d))))
     = match closure_amount c with
       | Some a => a
       | None => Js.of_Z 0
       end.
Proof.
  intros R A F T. pose proof (reachable_Inv p w R) as I.
  unfold Inv in I.
  destruct (gameState (state w)) eqn:G; try (destruct I; congruence).
  destruct I as (_ & S & C). simpl in S.
  destruct C as (_ & _ & Hw & Tw & _).
  set (w1 := step w (PlaySettled o d)).
  assert (W1 : gameState (state w1) = spinning
               /\ hasWon (state w1) = false
               /\ totalWinnings (state w1) = Js.of_Z 0
               /\ now w1 = now w
               /\ spin_pending (now w + 4000)%Z c w1).
  { subst w1. simpl. rewrite A. unfold handleOpenBox_resume. rewrite F.
    unfold handleOpenBox_spin, startRouletteSpin. rewrite T.
    rewrite (reconcile_target_nonempty _ _ _ _ T).
    unfold spin_pending, setTimeout.
    destruct (winning_set _); simpl; rewrite filter_app; simpl;
      unfold spins in S; apply length_zero_iff_nil in S; rewrite S;
      now repeat split. }
  destruct W1 as (G1 & H1 & T1 & N1 & P1).
  split; [|].
  - intros n L.
    destruct (wait_before_due _ c n w1 P1) as (_ & _ & G2 & _); [lia|].
    now rewrite G2.
  - change 4000%N with (N.succ 3999). rewrite wait_succ.
    destruct (wait_before_due _ c 3999 w1 P1) as (P2 & N2 & _ & H2 & T2); [lia|].
    destruct (tick_at_due _ c (wait 3999 w1) P2) as (G3 & H3 & T3); [lia|].
    rewrite G3, H3, T3, H2, T2, H1, T1. rewrite orb_false_r. now repeat split.
Qed.

Lemma first_click_closure (p : Props) (c : Closure) :
  awaiting (step (mount p) ClickOpenBox) = Some c -> seen c = initial.
Proof.
  simpl. destruct (open_box_button (mount p)); [|discriminate].
  unfold handleOpenBox. simpl.
  destruct (scratchCardData p); [|discriminate].
  destruct (negb (isAuthenticated p) || false); [discriminate|].
  destruct (id p) as [[|x y]|], (token p) as [[|x' y']|]; simpl; try discriminate.
  now intros [= <-].
Qed.

(** The first spin of a session never shows a win: its closure holds the
    initial state, where [gameResult] is [null]. *)
Corollary first_spin_hides_win (p : Props) (c : Closure) (o : FetchOutcome)
          (d : Draws) (r : GameResult.t) (t : RouletteItem.t) :
  awaiting (step (mount p) ClickOpenBox) = Some c ->
  result (playGame_return o) = Some r ->
  targetItem (reconcile (pick_draw d) r
                (generateRouletteItems (sort_draws d) (ScratchCardData.prizes (card c))))
  = Some t ->
  gameState (state (wait 4000 (run (mount p) [ClickOpenBox; PlaySettled o d]))) = completed
  /\ hasWon (state (wait 4000 (run (mount p) [ClickOpenBox; PlaySettled o d]))) = false
  /\ totalWinnings (state (wait 4000 (run (mount p) [ClickOpenBox; PlaySettled o d])))
     = Js.of_Z 0.
Proof.
  intros A F T.
  assert (R : reachable p (step (mount p) ClickOpenBox))
    by (apply reach_step, reach_mount).
  destruct (spin_reveal p _ c o d r t R A F T) as (_ & G & H & W).
  pose proof (first_click_closure p c A) as Cl.
  assert (CW : closure_winner c = false)
    by (unfold closure_winner; now rewrite Cl).
  assert (CA : closure_amount c = None)
    by (unfold closure_amount; now rewrite Cl).
  rewrite CW in H. rewrite CA in W.
  change (run (mount p) [ClickOpenBox; PlaySettled o d])
    with (step (step (mount p) ClickOpenBox) (PlaySettled o d)).
  split; [exact G|]. split; [exact H|exact W].
Qed.

(** Without a completion timer, time changes neither the game state nor
    the win flag. *)
Lemma tick_without_spin (w : World) :
  spins (timers w) = 0%nat ->
  spins (timers (tick w)) = 0%nat
  /\ gameState (state (tick w)) = gameState (state w)
  /\ hasWon (state (tick w)) = hasWon (state w).
Proof.
  intro S. unfold tick.
  set (f := fun tm => (due tm <=? now w + 1)%Z).
  pose proof (spins_split f (timers w)) as Sp. rewrite S in Sp.
  assert (R : spins (filter f (timers w)) = 0%nat) by lia.
  match goal with
  | |- context [fold_left ?g ?l ?x] =>
      destruct (calm_fields _ _ (fold_confetti l R x)) as (_ & _ & _ & T & _ & G & H & _)
  end.
  rewrite T, G, H. simpl. repeat split.
  unfold f in Sp. cbv beta in Sp. lia.
Qed.

(** A win without a matching cell, in general: the session enters
    [spinning] without a completion timer and stays there. *)
Lemma degraded_match_stalls (p : Props) (w : World) (c : Closure) (o : FetchOutcome)
      (d : Draws) (r : GameResult.t) :
  reachable p w ->
  awaiting w = Some c ->
  result (playGame_return o) = Some r ->
  targetItem (reconcile (pick_draw d) r
                (generateRouletteItems (sort_draws d) (ScratchCardData.prizes (card c))))
  = None ->
  forall n,
    gameState (state (wait n (step w (PlaySettled o d)))) = spinning
    /\ hasWon (state (wait n (step w (PlaySettled o d)))) = false.
Proof.
  intros R A F T. pose proof (reachable_Inv p w R) as I.
  unfold Inv in I.
  destruct (gameState (state w)) eqn:G; try (destruct I; congruence).
  destruct I as (_ & S & C). simpl in S. destruct C as (_ & _ & Hw & _).
  set (w1 := step w (PlaySettled o d)).
  assert (W1 : spins (timers w1) = 0%nat
               /\ gameState (state w1) = spinning
               /\ hasWon (state w1) = false).
  { subst w1. simpl. rewrite A. unfold handleOpenBox_resume. rewrite F.
    unfold handleOpenBox_spin, startRouletteSpin. rewrite T.
    destruct (winning_set _); simpl; now repeat split. }
  intro n. unfold wait.
  induction n as [|n IH] using N.peano_ind.
  - simpl. split; apply W1.
  - rewrite N.iter_succ.
    assert (Sn : spins (timers (N.iter n tick w1)) = 0%nat).
    { clear IH. induction n as [|n IHn] using N.peano_ind; [apply W1|].
      rewrite N.iter_succ. now apply tick_without_spin. }
    destruct (tick_without_spin _ Sn) as (_ & G' & H').
    rewrite G', H'. exact IH.
Qed.

End Timing.

(** ** The game machine *)

Section Machine.
Import RouletteBoxPage Invariant.

(** C1 fails on the code: the completion callback reads [gameResult]
    from the closure of the render in which the button was clicked, where
    it is still [null].  In scenario 2 (one MONEY prize of 1500, won) the
    page stays in [spinning] for 3999 ms and is [completed] at 4000 ms,
    with the win flag unset and total winnings 0, although the result
    held by the state is the winning one and its [amountWon] reads
    1500. *)
Theorem first_win_is_shown_as_loss :
  gameState (state Scenario.spin_1500) = spinning
  /\ gameResult (state Scenario.spin_1500) = Some (Scenario.won_money "1500")
  /\ Js.parseFloat (GameResult.amountWon (Scenario.won_money "1500")) = Js.of_Z 1500
  /\ gameState (state (wait 3999%N Scenario.spin_1500)) = spinning
  /\ gameState (state (wait 4000%N Scenario.spin_1500)) = completed
  /\ hasWon (state (wait 4000%N Scenario.spin_1500)) = false
  /\ totalWinnings (state (wait 4000%N Scenario.spin_1500)) = Js.of_Z 0.
Proof. repeat apply conj; vm_compute; reflexivity. Qed.

(** The same defect on a replay: the second spin, a loss, completes with
    the win flag set and the amount of the first spin, because its
    closure holds the first result. *)
Lemma replay_shows_previous_result :
  gameResult (state (wait 4000%N Scenario.replay_lost)) = Some Scenario.lost
  /\ gameState (state (wait 4000%N Scenario.replay_lost)) = completed
  /\ hasWon (state (wait 4000%N Scenario.replay_lost)) = true
  /\ totalWinnings (state (wait 4000%N Scenario.replay_lost)) = Js.of_Z 1500.
Proof. repeat apply conj; vm_compute; reflexivity. Qed.

(** C3 fails on the code: in scenario 3 (the won prize of 2500 is not on
    the reel) no target is found, the state becomes [spinning], no timer
    is set and no message is shown; the page then stays in [spinning]
    however long one waits, with no winning item and no win shown. *)
Theorem unmatched_win_never_completes :
  GameResult.isWinner (Scenario.won_money "2500") = true
  /\ gameState (state Scenario.spin_2500) = spinning
  /\ timers Scenario.spin_2500 = []
  /\ effects Scenario.spin_2500 = [PlayRequest "box-1" "jwt"]
  /\ winningItem (state Scenario.spin_2500) = None
  /\ isSpinning (state Scenario.spin_2500) = false
  /\ (forall n,
        gameState (state (wait n Scenario.spin_2500)) = spinning
        /\ hasWon (state (wait n Scenario.spin_2500)) = false
        /\ open_box_button (wait n Scenario.spin_2500) = false
        /\ play_again_button (wait n Scenario.spin_2500) = false).
Proof.
  assert (T : timers Scenario.spin_2500 = []) by (vm_compute; reflexivity).
  assert (G : gameState (state Scenario.spin_2500) = spinning)
    by (vm_compute; reflexivity).
  assert (H : hasWon (state Scenario.spin_2500) = false)
    by (vm_compute; reflexivity).
  do 6 (split; [vm_compute; reflexivity|]).
  intro n. destruct (wait_no_timers n _ T) as [S _].
  unfold open_box_button, play_again_button. rewrite S, G, H. now repeat split.
Qed.

(** C8. In a session that is in state [spinning], clicking either button
    changes nothing at all (the buttons are not rendered); every event
    leaves the state in [spinning], except a tick of the clock that moves
    it to [completed]; and no event adds a play request. *)
Theorem spinning_accepts_no_action (p : Props) (w : World) :
  reachable p w ->
  gameState (state w) = spinning ->
  (forall e, is_user_action e = true -> step w e = w)
  /\ (forall e,
        gameState (state (step w e)) = spinning
        \/ (e = Tick /\ gameState (state (step w e)) = completed))
  /\ (forall e a b,
        In (PlayRequest a b) (effects (step w e)) ->
        In (PlayRequest a b) (effects w)).
Proof.
  intros R G. pose proof (reachable_Inv p w R) as I.
  unfold Inv in I. rewrite G in I. destruct I as [A _].
  assert (U : forall e, is_user_action e = true -> step w e = w).
  { intros [| |o d|] Ue; try discriminate; simpl.
    - unfold open_box_button. now rewrite G.
    - unfold play_again_button. now rewrite G. }
  split; [exact U|]. split.
  - intros [| |o d|].
    + left. now rewrite (U ClickOpenBox eq_refl).
    + left. now rewrite (U ClickPlayAgain eq_refl).
    + left. simpl. now rewrite A.
    + simpl. destruct (tick_from_spinning w G) as [[S|C] _]; [now left|right; now split].
  - intros [| |o d|] a b.
    + now rewrite (U ClickOpenBox eq_refl).
    + now rewrite (U ClickPlayAgain eq_refl).
    + simpl. now rewrite A.
    + simpl. apply (tick_from_spinning w G).
Qed.

Lemma spinning_accepts_no_action_witness :
  step (wait 1500%N Scenario.spin_lost) ClickPlayAgain = wait 1500%N Scenario.spin_lost
  /\ step (wait 1500%N Scenario.spin_lost) ClickOpenBox = wait 1500%N Scenario.spin_lost.
Proof.
  assert (R : reachable (Scenario.player [Scenario.money "p1" "5" true])
                (wait 1500%N Scenario.spin_lost)).
  { apply reachable_wait. unfold Scenario.spin_lost, Scenario.in_flight.
    apply reachable_run, reachable_run, reach_mount. }
  assert (G : gameState (state (wait 1500%N Scenario.spin_lost)) = spinning)
    by (vm_compute; reflexivity).
  split.
  - apply (proj1 (spinning_accepts_no_action _ _ R G) ClickPlayAgain). reflexivity.
  - apply (proj1 (spinning_accepts_no_action _ _ R G) ClickOpenBox). reflexivity.
Defined.

(** The handlers themselves do not test [gameState]: what keeps a click
    away during a spin is that no button is rendered.  Called directly on a
    spinning session, [handleOpenBox] would start another play. *)
Remark handlers_do_not_test_gameState :
  gameState (state (wait 1500 Scenario.spin_lost)) = spinning
  /\ gameState (state (handleOpenBox (state (wait 1500 Scenario.spin_lost))
                         (wait 1500 Scenario.spin_lost))) = loading.
Proof. split; vm_compute; reflexivity. Qed.

(** C9. When the play call of a session ends without a result (the
    request throws, the answer reports a business error, or it carries no
    result), the state goes from [loading] back to [idle], exactly one
    error toast with a non-empty message is added, no timer is set, and no
    per-spin data is set: empty reel, no winning item, no win, winnings 0,
    no result, no confetti, no spinning flag, rotation 0. *)
Theorem play_failure_returns_to_idle (p : Props) (w : World) (c : Closure)
        (o : FetchOutcome) (d : Draws) :
  reachable p w ->
  awaiting w = Some c ->
  result (playGame_return o) = None ->
  gameState (state w) = loading
  /\ gameState (state (step w (PlaySettled o d))) = idle
  /\ (exists m, m <> ""
                /\ effects (step w (PlaySettled o d)) = (effects w ++ [ToastError m])%list)
  /\ timers (step w (PlaySettled o d)) = timers w
  /\ spins (timers (step w (PlaySettled o d))) = 0%nat
  /\ awaiting (step w (PlaySettled o d)) = None
  /\ clean (state (step w (PlaySettled o d))).
Proof.
  intros R A F. pose proof (reachable_Inv p w R) as I.
  unfold Inv in I.
  destruct (gameState (state w)) eqn:G; try (destruct I; congruence).
  destruct I as (_ & S & C). simpl in S.
  simpl. rewrite A. unfold handleOpenBox_resume. rewrite F.
  unfold handleOpenBox_failed. simpl.
  repeat apply conj; trivial; try apply C.
  exists (Js.or_opt (errorMessage (playGame_return o))
                    "Erro ao abrir a box. Tente novamente.").
  split; [|reflexivity].
  destruct (errorMessage (playGame_return o)) as [[|x y]|]; discriminate.
Qed.

Lemma play_failure_returns_to_idle_witness :
  gameState (state (step Scenario.in_flight
                      (PlaySettled (Responds false "Saldo insuficiente" None)
                                   Scenario.no_draws))) = idle
  /\ clean (state (step Scenario.in_flight (PlaySettled Rejects Scenario.no_draws))).
Proof.
  assert (R : reachable (Scenario.player [Scenario.money "p1" "5" true])
                Scenario.in_flight).
  { unfold Scenario.in_flight. apply reachable_run, reach_mount. }
  assert (A : awaiting Scenario.in_flight
              = Some (Build_Closure initial (Scenario.box [Scenario.money "p1" "5" true])))
    by reflexivity.
  split.
  - apply (play_failure_returns_to_idle _ _ _
             (Responds false "Saldo insuficiente" None) Scenario.no_draws R A).
    reflexivity.
  - apply (play_failure_returns_to_idle _ _ _ Rejects Scenario.no_draws R A).
    reflexivity.
Defined.

(** The failure that needs no request: without a route id or a token
    [playGame] returns at once, and the click ends in [idle] with the
    toast and nothing sent. *)
Lemma missing_token_returns_to_idle :
  let w := step (mount (Build_Props true None (Some "box-1")
                          (Some (Scenario.box [])))) ClickOpenBox in
  gameState (state w) = idle
  /\ effects w = [ToastError "Dados de autenticação ausentes."]
  /\ awaiting w = None.
Proof. repeat apply conj; reflexivity. Qed.

(** The flag of a cell is written in the winner branch only, on a cell
    that satisfies the predicate given to [find]. *)
Lemma flag_only_on_match (u : Q) (res : GameResult.t)
      (items : list RouletteItem.t) (it : RouletteItem.t) :
  Forall unflagged items ->
  In it (items_after (reconcile u res items)) ->
  RouletteItem.isWinning it <> None ->
  GameResult.isWinner res = true
  /\ exists prize, GameResult.prize res = Some prize /\ matches prize it = true.
Proof.
  intros U I Fl. rewrite Forall_forall in U.
  unfold reconcile in I.
  destruct (GameResult.isWinner res) eqn:W;
    [destruct (GameResult.prize res) as [prize|] eqn:P|];
    try (simpl in I; apply U in I; contradiction).
  destruct (find_index (matches prize) items) as [i|] eqn:F;
    [|simpl in I; apply U in I; contradiction].
  simpl in I. split; [reflexivity|]. exists prize. split; [reflexivity|].
  destruct (find_index_Some _ _ _ F) as (c0 & N & M & _).
  apply mark_at_In in I. destruct I as [I|(c1 & N1 & ->)].
  - apply U in I. contradiction.
  - rewrite N in N1. injection N1 as <-. exact M.
Qed.

(** C10. When the play call of a session yields a result that is not a
    win, then from that moment on, however long one waits, no cell of the
    reel is flagged and no winning item is recorded; before the answer the
    reel is empty; freshly expanded cells are not flagged; and a flag is
    only ever written by the winner branch, on a cell matching the won
    prize. *)
Theorem loss_never_flags_a_cell (p : Props) (w : World) (c : Closure)
        (o : FetchOutcome) (d : Draws) (r : GameResult.t) :
  reachable p w ->
  awaiting w = Some c ->
  result (playGame_return o) = Some r ->
  GameResult.isWinner r = false ->
  (rouletteItems (state w) = [] /\ winningItem (state w) = None)
  /\ (forall n,
        Forall unflagged (rouletteItems (state (wait n (step w (PlaySettled o d)))))
        /\ winningItem (state (wait n (step w (PlaySettled o d)))) = None)
  /\ (forall draws prizes, Forall unflagged (generateRouletteItems draws prizes))
  /\ (forall u res items it,
        Forall unflagged items ->
        In it (items_after (reconcile u res items)) ->
        RouletteItem.isWinning it <> None ->
        GameResult.isWinner res = true
        /\ exists prize, GameResult.prize res = Some prize /\ matches prize it = true).
Proof.
  intros R A F L. pose proof (reachable_Inv p w R) as I.
  unfold Inv in I.
  destruct (gameState (state w)) eqn:G; try (destruct I; congruence).
  destruct I as (_ & _ & C). destruct C as (Ri & Wi & _).
  split; [now split|].
  split; [|split; [apply generate_unflagged|apply flag_only_on_match]].
  intro n. destruct (wait_keeps_reel n (step w (PlaySettled o d))) as [R' W'].
  rewrite R', W'. simpl. rewrite A. unfold handleOpenBox_resume. rewrite F.
  match goal with
  | |- context [handleOpenBox_spin c d r ?x] =>
      destruct (handleOpenBox_spin_facts c d r x) as (_ & _ & _ & Rs & Ws & _)
  end.
  rewrite Rs, Ws.
  destruct (reconcile_loss (pick_draw d) r
              (generateRouletteItems (sort_draws d) (ScratchCardData.prizes (card c)))
              (or_introl L)) as [Ia Wn].
  rewrite Ia, Wn. simpl. split; [apply generate_unflagged|exact Wi].
Qed.

Lemma loss_never_flags_a_cell_witness :
  Forall unflagged (rouletteItems (state (wait 4000%N Scenario.spin_lost)))
  /\ winningItem (state (wait 4000%N Scenario.spin_lost)) = None.
Proof.
  assert (R : reachable (Scenario.player [Scenario.money "p1" "5" true])
                Scenario.in_flight).
  { unfold Scenario.in_flight. apply reachable_run, reach_mount. }
  assert (A : awaiting Scenario.in_flight
              = Some (Build_Closure initial (Scenario.box [Scenario.money "p1" "5" true])))
    by reflexivity.
  exact (proj1 (proj2 (loss_never_flags_a_cell _ _ _
                         (Responds true "ok" (Some Scenario.lost)) Scenario.no_draws
                         Scenario.lost R A eq_refl eq_refl)) 4000%N).
Defined.

End Machine.

(** * Further properties *)

(** ** The reel *)

Lemma reel_cells_are_catalogue_copies_aux (draws : list nat) (prizes : list Prize.t)
      (c : RouletteItem.t) :
  (exists p i,
      In p prizes
      /\ (i < repetitions (prize_rarity p))%nat
      /\ c = cell p (prize_rarity p) i) ->
  In c (generateRouletteItems draws prizes).
Proof.
  intros (p & i & Ip & Li & ->).
  apply (Permutation_in _ (Permutation_sym (generate_Permutation draws prizes))).
  apply in_flat_map. exists p. split; [exact Ip|].
  unfold expand. apply in_map. apply in_seq. lia.
Qed.

(** X1. A cell is on the reel exactly when it is the [i]-th copy of a prize
    of the catalogue, [i] below the repetitions of the prize's rarity:
    the expander invents no cell and drops none. *)
Theorem reel_cells_are_catalogue_copies (draws : list nat) (prizes : list Prize.t)
        (c : RouletteItem.t) :
  In c (generateRouletteItems draws prizes)
  <-> exists p i,
        In p prizes
        /\ (i < repetitions (prize_rarity p))%nat
        /\ c = cell p (prize_rarity p) i.
Proof.
  split.
  - intro I. apply (Permutation_in _ (generate_Permutation draws prizes)) in I.
    apply in_flat_map in I. destruct I as (p & Ip & Ic).
    unfold expand in Ic. apply in_map_iff in Ic. destruct Ic as (i & E & Ii).
    apply in_seq in Ii. exists p, i. repeat split; [exact Ip|lia|now symmetry].
  - intros (p & i & Ip & Li & ->).
    apply (Permutation_in _ (Permutation_sym (generate_Permutation draws prizes))).
    apply in_flat_map. exists p. split; [exact Ip|].
    unfold expand. apply in_map. apply in_seq. lia.
Qed.

Lemma string_of_uint_digits (d : Decimal.uint) :
  all_digits (NilEmpty.string_of_uint d) = true.
Proof. induction d; simpl; trivial. Qed.

Lemma decimal_digits (n : nat) : all_digits (decimal n) = true.
Proof. apply string_of_uint_digits. Qed.

Lemma digits_no_dash (s t : string) : all_digits (s ++ String "-" t) = false.
Proof.
  induction s as [|c s IH]; simpl; [reflexivity|].
  destruct (Js.digit_of c); [exact IH|reflexivity].
Qed.

Lemma dash_suffix_inj (s1 s2 d1 d2 : string) :
  all_digits d1 = true -> all_digits d2 = true ->
  s1 ++ String "-" d1 = s2 ++ String "-" d2 -> s1 = s2 /\ d1 = d2.
Proof.
  intros D1 D2. revert s2.
  induction s1 as [|c s1 IH]; intros [|c' s2]; simpl; intro E.
  - injection E as E. now split.
  - injection E as _ E. rewrite E, digits_no_dash in D1. discriminate.
  - injection E as _ E. rewrite <- E, digits_no_dash in D2. discriminate.
  - injection E as -> E. destruct (IH _ E) as [-> ->]. now split.
Qed.

Lemma cell_id_inj_prizes (p q : Prize.t) (r r' : Rarity) (i j : nat) :
  RouletteItem.id (cell p r i) = RouletteItem.id (cell q r' j) ->
  Prize.id p = Prize.id q /\ i = j.
Proof.
  simpl. intro E.
  apply dash_suffix_inj in E; try apply decimal_digits.
  destruct E as [E1 E2]. split; [exact E1|now apply decimal_inj].
Qed.

Lemma flat_map_expand_ids_NoDup (prizes : list Prize.t) :
  NoDup (map Prize.id prizes) ->
  NoDup (map RouletteItem.id (flat_map expand prizes)).
Proof.
  induction prizes as [|p ps IH]; simpl; intro N; [constructor|].
  inversion N as [|x l Nx Nl]; subst.
  rewrite map_app. apply NoDup_app; [apply expand_ids_NoDup|now apply IH|].
  intros a Ia Ib.
  apply in_map_iff in Ia. destruct Ia as (c1 & E1 & I1).
  apply in_map_iff in Ib. destruct Ib as (c2 & E2 & I2).
  unfold expand in I1. apply in_map_iff in I1. destruct I1 as (i & <- & _).
  apply in_flat_map in I2. destruct I2 as (q & Iq & I2).
  unfold expand in I2. apply in_map_iff in I2. destruct I2 as (j & <- & _).
  rewrite <- E2 in E1. apply cell_id_inj_prizes in E1. destruct E1 as [E _].
  apply Nx. rewrite E. now apply in_map.
Qed.

(** X2. When the prizes of the catalogue have pairwise different ids, so
    have the cells of the reel. *)
Theorem reel_ids_are_distinct (draws : list nat) (prizes : list Prize.t) :
  NoDup (map Prize.id prizes) ->
  NoDup (map RouletteItem.id (generateRouletteItems draws prizes)).
Proof.
  intro N.
  apply (Permutation_NoDup
           (Permutation_map RouletteItem.id
              (Permutation_sym (generate_Permutation draws prizes)))).
  now apply flat_map_expand_ids_NoDup.
Qed.

Lemma reel_ids_are_distinct_witness :
  NoDup (map RouletteItem.id
           (generateRouletteItems [3; 1; 4]%nat
              [Scenario.money "p1" "5" true; Scenario.money "p1-0" "1500" true])).
Proof.
  apply (reel_ids_are_distinct [3; 1; 4]%nat
           [Scenario.money "p1" "5" true; Scenario.money "p1-0" "1500" true]).
  simpl. constructor; [|constructor; [|constructor]]; simpl; [|tauto].
  intros [E|[]]. discriminate.
Defined.

(** ** Reconciliation leaves the reel as it is *)

Lemma mark_at_length (i : nat) (l : list RouletteItem.t) :
  List.length (mark_at i l) = List.length l.
Proof.
  revert i. induction l as [|x l IH]; intros [|i]; simpl; trivial.
  now rewrite IH.
Qed.

Lemma mark_at_map {B : Type} (f : RouletteItem.t -> B) (i : nat)
      (l : list RouletteItem.t) :
  (forall x, f (RouletteItem.mark x) = f x) ->
  map f (mark_at i l) = map f l.
Proof.
  intro F. revert i. induction l as [|x l IH]; intros [|i]; simpl; trivial.
  - now rewrite F.
  - now rewrite IH.
Qed.

Lemma reconcile_cases (u : Q) (r : GameResult.t) (items : list RouletteItem.t) :
  (exists i c,
      nth_error items i = Some c
      /\ items_after (reconcile u r items) = mark_at i items
      /\ targetItem (reconcile u r items) = Some (RouletteItem.mark c)
      /\ winning_set (reconcile u r items) = Some (RouletteItem.mark c))
  \/ (items_after (reconcile u r items) = items
      /\ winning_set (reconcile u r items) = None
      /\ forall t, targetItem (reconcile u r items) = Some t -> In t items).
Proof.
  destruct (GameResult.isWinner r) eqn:W;
    [destruct (GameResult.prize r) as [prize|] eqn:P|].
  - destruct (find_index (matches prize) items) as [i|] eqn:F.
    + left. destruct (reconcile_found u r prize items i W P F)
        as (c & N & _ & _ & Ia & T & Ws).
      exists i, c. now repeat split.
    + right. rewrite (reconcile_not_found u r prize items W P F). simpl.
      repeat split. discriminate.
  - right. destruct (reconcile_loss u r items (or_intror P)) as [Ia Ws].
    repeat split; trivial. unfold reconcile. rewrite W, P. simpl.
    intros t T.
    destruct (nth_error (filter is_common items) _) as [x|] eqn:N.
    + injection T as <-. apply nth_error_In in N. now apply filter_In in N.
    + destruct items; [discriminate|]. injection T as <-. now left.
  - right. destruct (reconcile_loss u r items (or_introl W)) as [Ia Ws].
    repeat split; trivial. unfold reconcile. rewrite W. simpl.
    intros t T.
    destruct (nth_error (filter is_common items) _) as [x|] eqn:N.
    + injection T as <-. apply nth_error_In in N. now apply filter_In in N.
    + destruct items; [discriminate|]. injection T as <-. now left.
Qed.

Lemma reconcile_target_In (u : Q) (r : GameResult.t) (items : list RouletteItem.t)
      (t : RouletteItem.t) :
  targetItem (reconcile u r items) = Some t ->
  In t (items_after (reconcile u r items)).
Proof.
  destruct (reconcile_cases u r items) as [(i & c & N & Ia & T & _)|(Ia & _ & H)].
  - rewrite Ia, T. intros [= <-].
    apply (nth_error_In _ i). now apply mark_at_nth.
  - rewrite Ia. apply H.
Qed.

(** X3. Reconciliation keeps the reel: the array after it has as many
    cells, with the same ids, values, categories and rarities in the same
    order; a target is always a cell of that array; and a winning item is
    only ever recorded together with the target and carries the flag. *)
Theorem reconcile_keeps_the_reel (u : Q) (r : GameResult.t)
        (items : list RouletteItem.t) :
  List.length (items_after (reconcile u r items)) = List.length items
  /\ map RouletteItem.id (items_after (reconcile u r items)) = map RouletteItem.id items
  /\ map RouletteItem.value (items_after (reconcile u r items))
     = map RouletteItem.value items
  /\ map RouletteItem.type (items_after (reconcile u r items))
     = map RouletteItem.type items
  /\ map RouletteItem.rarity (items_after (reconcile u r items))
     = map RouletteItem.rarity items
  /\ (forall t, targetItem (reconcile u r items) = Some t ->
                In t (items_after (reconcile u r items)))
  /\ (forall t, winning_set (reconcile u r items) = Some t ->
                targetItem (reconcile u r items) = Some t
                /\ RouletteItem.isWinning t = Some true).
Proof.
  split; [|split; [|split; [|split; [|split; [|split]]]]];
    try (intros t; apply reconcile_target_In);
    destruct (reconcile_cases u r items) as [(i & c & N & Ia & T & Ws)|(Ia & Ws & _)];
    rewrite ?Ia; trivial.
  - apply mark_at_length.
  - now apply mark_at_map.
  - now apply mark_at_map.
  - now apply mark_at_map.
  - now apply mark_at_map.
  - intros t. rewrite Ws, T. intros [= <-]. now split.
  - intros t. rewrite Ws. discriminate.
Qed.

(** ** A loss on a catalogue that is not empty *)

Lemma generate_nonempty (draws : list nat) (prizes : list Prize.t) :
  prizes <> [] -> generateRouletteItems draws prizes <> [].
Proof.
  intros NE E. apply (f_equal (@List.length _)) in E.
  rewrite generate_length in E. destruct prizes as [|p ps]; [congruence|].
  simpl in E. destruct (prize_rarity p); simpl in E; discriminate.
Qed.

(** X4. When the result is not a win, or names no prize, and the catalogue
    is not empty, there always is a target: a cell of the reel, hence a copy
    of a catalogue prize; it is common as soon as the catalogue holds a
    prize that the expander rates common. *)
Theorem loss_always_has_a_target (u : Q) (draws : list nat) (r : GameResult.t)
        (prizes : list Prize.t) :
  GameResult.isWinner r = false \/ GameResult.prize r = None ->
  prizes <> [] ->
  exists t,
    targetItem (reconcile u r (generateRouletteItems draws prizes)) = Some t
    /\ In t (generateRouletteItems draws prizes)
    /\ ((exists p, In p prizes /\ prize_rarity p = common) ->
        RouletteItem.rarity t = common).
Proof.
  intros L NE. set (items := generateRouletteItems draws prizes).
  assert (T : targetItem (reconcile u r items)
              = match nth_error (filter is_common items)
                        (random_index u (List.length (filter is_common items))) with
                | Some it => Some it
                | None => hd_error items
                end).
  { unfold reconcile. destruct L as [L|L]; rewrite L; [reflexivity|].
    now destruct (GameResult.isWinner r). }
  destruct (filter is_common items) as [|x commons] eqn:F.
  - pose proof (generate_nonempty draws prizes NE) as NI. fold items in NI.
    destruct items as [|y items'] eqn:EI; [congruence|].
    exists y. rewrite T. simpl. destruct (random_index u 0); simpl.
    + repeat split; [now left|]. intros (p & Ip & Rp). exfalso.
      assert (I : In (cell p (prize_rarity p) 0) (generateRouletteItems draws prizes)).
      { apply reel_cells_are_catalogue_copies_aux. exists p, 0%nat.
        repeat split; trivial. destruct (prize_rarity p); simpl; lia. }
      fold items in I. rewrite EI in I.
      assert (I' : In (cell p (prize_rarity p) 0) (filter is_common (y :: items'))).
      { apply filter_In. split; [exact I|]. unfold is_common. simpl. now rewrite Rp. }
      rewrite F in I'. contradiction.
    + repeat split; [now left|]. intros (p & Ip & Rp). exfalso.
      assert (I : In (cell p (prize_rarity p) 0) (generateRouletteItems draws prizes)).
      { apply reel_cells_are_catalogue_copies_aux. exists p, 0%nat.
        repeat split; trivial. destruct (prize_rarity p); simpl; lia. }
      fold items in I. rewrite EI in I.
      assert (I' : In (cell p (prize_rarity p) 0) (filter is_common (y :: items'))).
      { apply filter_In. split; [exact I|]. unfold is_common. simpl. now rewrite Rp. }
      rewrite F in I'. contradiction.
  - assert (B : (random_index u (List.length (x :: commons))
                 < List.length (x :: commons))%nat)
      by (apply random_index_lt; simpl; lia).
    destruct (nth_error (x :: commons) (random_index u (List.length (x :: commons))))
      as [t|] eqn:N; [|apply nth_error_None in N; lia].
    exists t. rewrite T. apply nth_error_In in N. rewrite <- F in N.
    apply filter_In in N. destruct N as [I C]. repeat split; trivial.
    intros _. unfold is_common in C. now destruct (RouletteItem.rarity t).
Qed.

(** ** More invariants of a session *)

Section SessionFacts.
Import RouletteBoxPage Invariant Coverage.

Ltac expose w :=
  destruct w as [[au tk rid sc] [gs ri scf hw tw gr pg wi isp sd fr] t a tm ef];
  simpl in *.

Lemma spinEnd_keeps (c : Closure) (w : World) :
  props (spinEnd c w) = props w
  /\ playingGame (state (spinEnd c w)) = playingGame (state w)
  /\ now (spinEnd c w) = now w
  /\ effects (spinEnd c w) = (effects w ++ profile_request (props w))%list
  /\ (closure_winner c = false ->
      hasWon (state (spinEnd c w)) = hasWon (state w)
      /\ showConfetti (state (spinEnd c w)) = showConfetti (state w)
      /\ totalWinnings (state (spinEnd c w)) = totalWinnings (state w))
  /\ (closure_winner c = true ->
      hasWon (state (spinEnd c w)) = true
      /\ showConfetti (state (spinEnd c w)) = true).
Proof.
  expose w. unfold spinEnd, refreshUserBalance, closure_winner, profile_request. simpl.
  destruct (gameResult (seen c)) as [r|]; [destruct (GameResult.isWinner r)|];
    destruct tk as [[|x y]|]; simpl; rewrite ?app_nil_r;
    repeat split; trivial; discriminate.
Qed.

Lemma run_callback_keeps (cb : Callback) (w : World) :
  props (run_callback cb w) = props w
  /\ playingGame (state (run_callback cb w)) = playingGame (state w)
  /\ awaiting (run_callback cb w) = awaiting w
  /\ now (run_callback cb w) = now w.
Proof.
  destruct cb as [c|]; simpl; [|now repeat split].
  destruct (spinEnd_keeps c w) as (P & G & N & _).
  destruct (spinEnd_facts c w) as (_ & A & _).
  now repeat split.
Qed.

Lemma tick_keeps (w : World) :
  props (tick w) = props w
  /\ playingGame (state (tick w)) = playingGame (state w)
  /\ awaiting (tick w) = awaiting w
  /\ now (tick w) = (now w + 1)%Z.
Proof.
  unfold tick.
  apply (fold_callbacks_ind (fun w' =>
    props w' = props w
    /\ playingGame (state w') = playingGame (state w)
    /\ awaiting w' = awaiting w
    /\ now w' = (now w + 1)%Z)).
  - intros cb w' (P & G & A & N).
    destruct (run_callback_keeps cb w') as (P' & G' & A' & N').
    rewrite P', G', A', N'. now repeat split.
  - simpl. now repeat split.
Qed.

Lemma startRouletteSpin_keeps (c : Closure) (target : option RouletteItem.t)
      (items : list RouletteItem.t) (w : World) :
  props (startRouletteSpin c target items w) = props w
  /\ playingGame (state (startRouletteSpin c target items w)) = playingGame (state w)
  /\ hasWon (state (startRouletteSpin c target items w)) = hasWon (state w)
  /\ showConfetti (state (startRouletteSpin c target items w)) = showConfetti (state w)
  /\ totalWinnings (state (startRouletteSpin c target items w))
     = totalWinnings (state w).
Proof.
  unfold startRouletteSpin. destruct target as [t|]; [|now repeat split].
  destruct (List.length items =? 0)%nat; simpl; now repeat split.
Qed.

Lemma handleOpenBox_spin_keeps (c : Closure) (d : Draws) (r : GameResult.t)
      (w : World) :
  props (handleOpenBox_spin c d r w) = props w
  /\ playingGame (state (handleOpenBox_spin c d r w)) = playingGame (state w)
  /\ hasWon (state (handleOpenBox_spin c d r w)) = hasWon (state w)
  /\ showConfetti (state (handleOpenBox_spin c d r w)) = showConfetti (state w)
  /\ totalWinnings (state (handleOpenBox_spin c d r w)) = totalWinnings (state w).
Proof.
  unfold handleOpenBox_spin.
  match goal with
  | |- context [startRouletteSpin c ?t ?i ?x] =>
      destruct (startRouletteSpin_keeps c t i x) as (P & G & H & S & T)
  end.
  cbv zeta. rewrite P, G, H, S, T.
  destruct (winning_set _); simpl; now repeat split.
Qed.

Lemma handleOpenBox_resume_keeps (c : Closure) (o : FetchOutcome) (d : Draws)
      (w : World) :
  props (handleOpenBox_resume c o d w) = props w
  /\ playingGame (state (handleOpenBox_resume c o d w)) = false
  /\ awaiting (handleOpenBox_resume c o d w) = None
  /\ hasWon (state (handleOpenBox_resume c o d w)) = hasWon (state w)
  /\ showConfetti (state (handleOpenBox_resume c o d w)) = showConfetti (state w)
  /\ totalWinnings (state (handleOpenBox_resume c o d w)) = totalWinnings (state w).
Proof.
  unfold handleOpenBox_resume.
  destruct (result (playGame_return o)) as [r|].
  - match goal with
    | |- context [handleOpenBox_spin c d r ?x] =>
        destruct (handleOpenBox_spin_keeps c d r x) as (P & G & H & S & T);
        destruct (handleOpenBox_spin_facts c d r x) as (_ & A & _)
    end.
    rewrite P, G, H, S, T, A. now repeat split.
  - simpl. now repeat split.
Qed.

Lemma handleOpenBox_stopped (seen : State) (w : World) :
  guard_stops seen (props w) -> handleOpenBox seen w = w.
Proof.
  unfold guard_stops, handleOpenBox. intros [H|[H|H]].
  - now rewrite H.
  - rewrite H. now destruct (scratchCardData (props w)).
  - rewrite H. destruct (scratchCardData (props w)); [|reflexivity].
    now rewrite orb_true_r.
Qed.

Lemma handlePlayAgain_stopped (seen : State) (w : World) :
  guard_stops seen (props w) -> handlePlayAgain seen w = w.
Proof.
  unfold guard_stops, handlePlayAgain. intros [H|[H|H]].
  - now rewrite H.
  - rewrite H. now destruct (scratchCardData (props w)).
  - rewrite H. destruct (scratchCardData (props w)); [|reflexivity].
    now rewrite orb_true_r.
Qed.

Lemma guard_dec (seen : State) (p : Props) :
  guard_stops seen p
  \/ (scratchCardData p <> None /\ isAuthenticated p = true /\ playingGame seen = false).
Proof.
  unfold guard_stops.
  destruct (scratchCardData p); [|now left; left].
  destruct (isAuthenticated p); [|now left; right; left].
  destruct (playingGame seen); [now left; right; right|].
  right. repeat split. discriminate.
Qed.

Lemma handleOpenBox_passed (seen : State) (w : World) :
  scratchCardData (props w) <> None ->
  isAuthenticated (props w) = true ->
  playingGame seen = false ->
  attempt w (handleOpenBox seen w)
  /\ rouletteItems (state (handleOpenBox seen w)) = rouletteItems (state w).
Proof.
  intros D A G. unfold handleOpenBox, attempt.
  destruct (scratchCardData (props w)) as [data|]; [|congruence].
  rewrite A, G. simpl.
  destruct (id (props w)) as [[|x y]|], (token (props w)) as [[|x' y']|]; simpl;
    unfold no_win_shown; simpl;
    (repeat split; trivial);
    try (right; split;
         [intros i t Hi Ht; try discriminate; inversion Hi; inversion Ht; subst; auto
         |now repeat split]).
  left. exists (String x y), (String x' y'). repeat split; discriminate.
Qed.

Lemma handlePlayAgain_passed (seen : State) (w : World) :
  scratchCardData (props w) <> None ->
  isAuthenticated (props w) = true ->
  playingGame seen = false ->
  attempt w (handlePlayAgain seen w)
  /\ rouletteItems (state (handlePlayAgain seen w)) = []
  /\ isSpinning (state (handlePlayAgain seen w)) = false
  /\ finalRotation (state (handlePlayAgain seen w)) = 0%Z.
Proof.
  intros D A G. unfold handlePlayAgain, handleOpenBox, attempt.
  cbn [props upd].
  destruct (scratchCardData (props w)) as [data|]; [|congruence].
  rewrite A, G. simpl.
  destruct (id (props w)) as [[|x y]|], (token (props w)) as [[|x' y']|]; simpl;
    unfold no_win_shown; simpl;
    (repeat split; trivial);
    try (right; split;
         [intros i t Hi Ht; try discriminate; inversion Hi; inversion Ht; subst; auto
         |now repeat split]).
  left. exists (String x y), (String x' y'). repeat split; discriminate.
Qed.

Lemma unflagged_not_flagged (x : RouletteItem.t) : unflagged x -> flagged x = false.
Proof. unfold unflagged, flagged. now intros ->. Qed.

Lemma filter_flagged_none (l : list RouletteItem.t) :
  Forall unflagged l -> filter flagged l = [].
Proof.
  induction 1 as [|x l U _ IH]; simpl; [reflexivity|].
  now rewrite (unflagged_not_flagged x U).
Qed.

Lemma filter_flagged_mark (i : nat) (l : list RouletteItem.t) (c : RouletteItem.t) :
  Forall unflagged l -> nth_error l i = Some c ->
  filter flagged (mark_at i l) = [RouletteItem.mark c].
Proof.
  intro U. revert i. induction U as [|x l Ux Ul IH]; intros [|i]; simpl; try discriminate.
  - intros [= ->]. now rewrite (filter_flagged_none l Ul).
  - intro N. rewrite (unflagged_not_flagged x Ux). now apply IH.
Qed.

Lemma win_display_callback (cb : Callback) (w : World) :
  win_display_ok (state w) -> win_display_ok (state (run_callback cb w)).
Proof.
  unfold win_display_ok, no_win_shown. destruct cb as [c|]; simpl.
  - destruct (spinEnd_facts c w) as (G & _). rewrite G.
    destruct (spinEnd_keeps c w) as (_ & _ & _ & _ & Lose & Win).
    destruct (closure_winner c).
    + destruct (Win eq_refl) as [H _]. now rewrite H.
    + destruct (Lose eq_refl) as (H & S & _). rewrite H, S.
      destruct (gameState (state w)); intros K; try exact K;
        destruct K as (K1 & K2 & _); rewrite K1, K2; discriminate.
  - destruct (gameState (state w)); intro K; try discriminate;
      destruct K as (K1 & _ & K3); now repeat split.
Qed.

Lemma requests_callback (p : Props) (cb : Callback) (w : World) :
  props w = p /\ Forall (request_ok p) (effects w) ->
  props (run_callback cb w) = p /\ Forall (request_ok p) (effects (run_callback cb w)).
Proof.
  intros [P F]. destruct (run_callback_keeps cb w) as (P' & _).
  split; [congruence|]. destruct cb as [c|]; simpl; [|exact F].
  destruct (spinEnd_keeps c w) as (_ & _ & _ & E & _). rewrite E.
  apply Forall_app. split; [exact F|].
  unfold profile_request. rewrite P.
  destruct (token p) as [[|a r]|] eqn:T; constructor; [|constructor].
  simpl. split; [exact T|discriminate].
Qed.

Lemma flags_agree_same (s s' : State) :
  rouletteItems s' = rouletteItems s -> winningItem s' = winningItem s ->
  flags_agree s -> flags_agree s'.
Proof. unfold flags_agree. now intros -> ->. Qed.

Lemma sound_mount (p : Props) : sound p (mount p).
Proof.
  unfold sound, Inv, clean, win_display_ok, no_win_shown, flags_agree. simpl.
  repeat split; constructor.
Qed.

Lemma sound_attempt (p : Props) (w w' : World) :
  sound p w -> awaiting w = None -> Inv [] w' ->
  isAuthenticated (props w) = true -> scratchCardData (props w) <> None ->
  attempt w w' -> rouletteItems (state w') = [] ->
  sound p w'.
Proof.
  intros (P & _ & G & _ & _ & R) A I Au Sc (P' & _ & Wi & _ & NW & Out) Ri.
  unfold sound. split; [congruence|]. split; [exact I|].
  assert (F : flags_agree (state w'))
    by (unfold flags_agree; rewrite Wi, Ri; constructor).
  unfold in_flight in *. rewrite A in G.
  destruct Out as [(i & t & Hi & Ht & Ni & Nt & Gs & Pg & Aw & Ef)
                  |(_ & Gs & Pg & Aw & Ef)].
  - split; [rewrite Pg; now destruct (awaiting w')|].
    split; [unfold win_display_ok; now rewrite Gs|].
    split; [exact F|]. rewrite Ef. apply Forall_app. split; [exact R|].
    constructor; [|constructor]. simpl. rewrite <- P. now repeat split.
  - split; [rewrite Pg, Aw, A; exact G|].
    split; [unfold win_display_ok; now rewrite Gs|].
    split; [exact F|]. rewrite Ef. apply Forall_app. split; [exact R|].
    constructor; [|constructor]. simpl. discriminate.
Qed.

Lemma button_enabled (p : Props) :
  button_disabled p = false ->
  isAuthenticated p = true /\ scratchCardData p <> None.
Proof.
  unfold button_disabled. destruct (isAuthenticated p); simpl; [|discriminate].
  destruct (scratchCardData p); [|discriminate]. split; [reflexivity|discriminate].
Qed.

Lemma open_box_button_true (w : World) :
  open_box_button w = true ->
  gameState (state w) = idle
  /\ isAuthenticated (props w) = true /\ scratchCardData (props w) <> None.
Proof.
  unfold open_box_button. intro B. apply andb_prop in B. destruct B as [G D].
  apply negb_true_iff in D. split; [|now apply button_enabled].
  now destruct (gameState (state w)).
Qed.

Lemma play_again_button_true (w : World) :
  play_again_button w = true ->
  gameState (state w) = completed
  /\ isAuthenticated (props w) = true /\ scratchCardData (props w) <> None.
Proof.
  unfold play_again_button. intro B. apply andb_prop in B. destruct B as [B D].
  apply andb_prop in B. destruct B as [G _].
  apply negb_true_iff in D. split; [|now apply button_enabled].
  now destruct (gameState (state w)).
Qed.

Lemma sound_step (p : Props) (w : World) (e : Event) :
  sound p w -> sound p (step w e).
Proof.
  intro S. pose proof S as (P & I & G & K & F & R).
  pose proof (step_Inv w e I) as I'.
  destruct e as [| |o d|]; simpl in *.
  - destruct (open_box_button w) eqn:B; [|exact S].
    apply open_box_button_true in B. destruct B as (Gs & Au & Sc).
    unfold Inv in I. rewrite Gs in I. destruct I as (A & _ & C).
    assert (Pg : playingGame (state w) = false)
      by (rewrite G; unfold in_flight; now rewrite A).
    destruct (handleOpenBox_passed (state w) w Sc Au Pg) as [At Ri].
    apply (sound_attempt p w); trivial. rewrite Ri. apply C.
  - destruct (play_again_button w) eqn:B; [|exact S].
    apply play_again_button_true in B. destruct B as (Gs & Au & Sc).
    unfold Inv in I. rewrite Gs in I. destruct I as (A & _).
    assert (Pg : playingGame (state w) = false)
      by (rewrite G; unfold in_flight; now rewrite A).
    destruct (handlePlayAgain_passed (state w) w Sc Au Pg) as (At & Ri & _).
    now apply (sound_attempt p w).
  - destruct (awaiting w) as [c|] eqn:A; [|exact S].
    unfold Inv in I.
    destruct (gameState (state w)) eqn:Gs; try (destruct I; congruence).
    destruct I as (_ & _ & C).
    destruct (handleOpenBox_resume_keeps c o d w) as (P1 & G1 & A1 & H1 & S1 & T1).
    unfold sound. split; [congruence|]. split; [exact I'|].
    split; [unfold in_flight; now rewrite G1, A1|].
    unfold win_display_ok in K. rewrite Gs in K.
    assert (NW : no_win_shown (state (handleOpenBox_resume c o d w)))
      by (unfold no_win_shown in *; now rewrite H1, S1, T1).
    destruct C as (Ri & Wi & _).
    unfold handleOpenBox_resume in *.
    destruct (result (playGame_return o)) as [r|].
    + match goal with
      | |- context [handleOpenBox_spin c d r ?x] =>
          destruct (handleOpenBox_spin_facts c d r x) as (Gs' & _ & _ & Rs & Ws & Es)
      end.
      split; [unfold win_display_ok; now rewrite Gs'|].
      split.
      * unfold flags_agree. rewrite Rs, Ws. simpl. rewrite Wi.
        pose proof (generate_unflagged (sort_draws d) (ScratchCardData.prizes (card c)))
          as U.
        destruct (reconcile_cases (pick_draw d) r
                    (generateRouletteItems (sort_draws d)
                       (ScratchCardData.prizes (card c))))
          as [(i & c0 & N & Ia & _ & Wn)|(Ia & Wn & _)]; rewrite Wn, Ia.
        -- split; [|now apply filter_flagged_mark].
           apply (nth_error_In _ i). now apply mark_at_nth.
        -- exact U.
      * rewrite Es. simpl. exact R.
    + split; [unfold win_display_ok; simpl; exact NW|].
      split; [apply (flags_agree_same (state w)); trivial|].
      simpl. apply Forall_app. split; [exact R|].
      constructor; [|constructor]. simpl.
      destruct (errorMessage (playGame_return o)) as [[|x y]|]; discriminate.
  - destruct (tick_keeps w) as (P1 & G1 & A1 & _).
    destruct (tick_keeps_reel w) as (Ri & Wi).
    unfold sound. split; [congruence|]. split; [exact I'|].
    split; [unfold in_flight; now rewrite G1, A1|].
    split; [|split].
    + apply (tick_ind (fun w' => win_display_ok (state w'))).
      * intros cb w'. apply win_display_callback.
      * intros t tm. exact K.
    + now apply (flags_agree_same (state w)).
    + apply (tick_ind (fun w' => props w' = p /\ Forall (request_ok p) (effects w'))).
      * intros cb w'. apply requests_callback.
      * intros t tm. simpl. now split.
Qed.

Lemma reachable_sound (p : Props) (w : World) : reachable p w -> sound p w.
Proof.
  induction 1 as [|w e R IH]; [apply sound_mount|now apply sound_step].
Qed.

(** X5. In every reachable session the recorded winning item and the
    flags of the reel agree: when a winning item is recorded it is a cell of
    the reel, it carries the flag and it is the only flagged cell; when none
    is recorded no cell is flagged. *)
Theorem winning_item_is_the_flagged_cell (p : Props) (w : World) :
  reachable p w ->
  (forall it, winningItem (state w) = Some it ->
              In it (rouletteItems (state w))
              /\ RouletteItem.isWinning it = Some true
              /\ filter flagged (rouletteItems (state w)) = [it])
  /\ (winningItem (state w) = None -> Forall unflagged (rouletteItems (state w))).
Proof.
  intro R. destruct (reachable_sound p w R) as (_ & _ & _ & _ & F & _).
  unfold flags_agree in F. split.
  - intros it E. rewrite E in F. destruct F as [I Fl]. repeat split; trivial.
    assert (M : In it (filter flagged (rouletteItems (state w))))
      by (rewrite Fl; now left).
    apply filter_In in M. destruct M as [_ M]. unfold flagged in M.
    destruct (RouletteItem.isWinning it) as [[|]|]; congruence.
  - intro E. now rewrite E in F.
Qed.

Lemma winning_item_is_the_flagged_cell_witness :
  exists it,
    winningItem (state (wait 4000 Scenario.spin_1500)) = Some it
    /\ filter flagged (rouletteItems (state (wait 4000 Scenario.spin_1500))) = [it].
Proof.
  assert (R : reachable (Scenario.player [Scenario.money "p1" "1500" true])
                (wait 4000 Scenario.spin_1500)).
  { apply reachable_wait. unfold Scenario.spin_1500. apply reachable_run, reach_mount. }
  destruct (winningItem (state (wait 4000 Scenario.spin_1500))) as [it|] eqn:E.
  - exists it. split; [reflexivity|].
    apply (proj1 (winning_item_is_the_flagged_cell _ _ R) it E).
  - vm_compute in E. discriminate.
Defined.

(** A session that has left [idle] has a route id and a token. *)
Lemma reachable_credentials (p : Props) (w : World) :
  reachable p w ->
  gameState (state w) <> idle ->
  exists i t, id p = Some i /\ token p = Some t /\ i <> "" /\ t <> "".
Proof.
  induction 1 as [|w e R IH]; [simpl; congruence|].
  pose proof (reachable_sound p w R) as (P & I & G & _).
  destruct e as [| |o d|]; simpl.
  - destruct (open_box_button w) eqn:B; [|exact IH].
    apply open_box_button_true in B. destruct B as (Gs & Au & Sc).
    unfold Inv in I. rewrite Gs in I. destruct I as (A & _).
    assert (Pg : playingGame (state w) = false)
      by (rewrite G; unfold in_flight; now rewrite A).
    destruct (handleOpenBox_passed (state w) w Sc Au Pg) as [At _].
    destruct At as (_ & _ & _ & _ & _
                    & [(i & t & Hi & Ht & Ni & Nt & _)|(_ & Gs' & _)]).
    + intros _. exists i, t. rewrite <- P. now repeat split.
    + congruence.
  - destruct (play_again_button w) eqn:B; [|exact IH].
    apply play_again_button_true in B. destruct B as (Gs & _).
    intros _. apply IH. congruence.
  - destruct (awaiting w) as [c|] eqn:A; [|exact IH].
    unfold Inv in I.
    destruct (gameState (state w)) eqn:Gs; try (destruct I; congruence).
    intros _. apply IH. discriminate.
  - intro N. apply IH. intro Gs. apply N.
    unfold Inv in I. rewrite Gs in I. destruct I as (_ & S & _). simpl in S.
    destruct (tick_without_spin w S) as (_ & Gs' & _). congruence.
Qed.

(** X6. The game state only ever moves along idle -> loading,
    loading -> spinning, loading -> idle, spinning -> completed and
    completed -> loading (or stays where it is), whatever the event; in
    particular a replay always goes through [loading]. *)
Theorem game_state_moves_along_the_cycle (p : Props) (w : World) (e : Event) :
  reachable p w ->
  allowed (gameState (state w)) (gameState (state (step w e))) = true.
Proof.
  intro R. pose proof (reachable_sound p w R) as (P & I & G & _).
  assert (Same : forall a, allowed a a = true) by (now intros []).
  destruct e as [| |o d|]; simpl.
  - destruct (open_box_button w) eqn:B; [|apply Same].
    apply open_box_button_true in B. destruct B as (Gs & Au & Sc).
    unfold Inv in I. rewrite Gs in I. destruct I as (A & _).
    assert (Pg : playingGame (state w) = false)
      by (rewrite G; unfold in_flight; now rewrite A).
    destruct (handleOpenBox_passed (state w) w Sc Au Pg) as [At _].
    destruct At as (_ & _ & _ & _ & _
                    & [(i & t & _ & _ & _ & _ & Gs' & _)|(_ & Gs' & _)]);
      now rewrite Gs, Gs'.
  - destruct (play_again_button w) eqn:B; [|apply Same].
    apply play_again_button_true in B. destruct B as (Gs & Au & Sc).
    unfold Inv in I. rewrite Gs in I. destruct I as (A & _).
    assert (Pg : playingGame (state w) = false)
      by (rewrite G; unfold in_flight; now rewrite A).
    destruct (handlePlayAgain_passed (state w) w Sc Au Pg) as [At _].
    destruct At as (_ & _ & _ & _ & _
                    & [(i & t & _ & _ & _ & _ & Gs' & _)|(No & _)]);
      [now rewrite Gs, Gs'|].
    destruct (reachable_credentials p w R) as (i & t & Hi & Ht & Ni & Nt);
      [congruence|].
    rewrite <- P in Hi, Ht. destruct (No i t Hi Ht); contradiction.
  - destruct (awaiting w) as [c|] eqn:A; [|apply Same].
    unfold Inv in I.
    destruct (gameState (state w)) eqn:Gs; try (destruct I; congruence).
    unfold handleOpenBox_resume.
    destruct (result (playGame_return o)) as [r|].
    + match goal with
      | |- context [handleOpenBox_spin c d r ?x] =>
          destruct (handleOpenBox_spin_facts c d r x) as (Gs' & _)
      end.
      now rewrite Gs'.
    + reflexivity.
  - destruct (gameState (state w)) eqn:Gs.
    + unfold Inv in I. rewrite Gs in I. destruct I as (_ & S & _). simpl in S.
      destruct (tick_without_spin w S) as (_ & Gs' & _). now rewrite Gs', Gs.
    + unfold Inv in I. rewrite Gs in I. destruct I as (_ & S & _). simpl in S.
      destruct (tick_without_spin w S) as (_ & Gs' & _). now rewrite Gs', Gs.
    + destruct (tick_from_spinning w Gs) as [[Gs'|Gs'] _]; now rewrite Gs'.
    + unfold Inv in I. rewrite Gs in I. destruct I as (_ & S). simpl in S.
      destruct (tick_without_spin w S) as (_ & Gs' & _). now rewrite Gs', Gs.
Qed.

Lemma game_state_moves_along_the_cycle_witness :
  allowed (gameState (state (wait 3999 Scenario.spin_lost)))
          (gameState (state (step (wait 3999 Scenario.spin_lost) Tick))) = true.
Proof.
  apply (game_state_moves_along_the_cycle
           (Scenario.player [Scenario.money "p1" "5" true])).
  apply reachable_wait. unfold Scenario.spin_lost, Scenario.in_flight.
  apply reachable_run, reachable_run, reach_mount.
Defined.

Lemma locked_inert (p : Props) (w : World) :
  button_disabled p = true ->
  reachable p w ->
  state w = initial /\ effects w = [] /\ timers w = [] /\ awaiting w = None.
Proof.
  intros D R. pose proof (reachable_sound p w R) as (P & _).
  induction R as [|w e R IH]; [now repeat split|].
  pose proof (reachable_sound p w R) as (Pw & _).
  destruct (IH Pw) as (S & E & T & A).
  destruct e as [| |o d|]; simpl.
  - unfold open_box_button. rewrite Pw, D, andb_false_r. now repeat split.
  - unfold play_again_button. rewrite Pw, D, andb_false_r. now repeat split.
  - rewrite A. now repeat split.
  - rewrite (tick_no_timers w T). simpl. now repeat split.
Qed.

(** X7. A session whose user is not authenticated, or whose catalogue is
    not loaded, never leaves the initial state: whatever the clicks, answers
    and ticks, nothing is sent, no timer is set and every state variable
    keeps its initial value. *)
Theorem locked_session_does_nothing (p : Props) (w : World) :
  isAuthenticated p = false \/ scratchCardData p = None ->
  reachable p w ->
  state w = initial /\ effects w = [] /\ timers w = [] /\ awaiting w = None.
Proof.
  intros L. apply locked_inert. unfold button_disabled.
  destruct L as [L|L]; rewrite L; [reflexivity|apply orb_true_r].
Qed.

Lemma locked_session_does_nothing_witness :
  effects (run (mount (Build_Props false (Some "jwt") (Some "box-1")
                         (Some (Scenario.box [Scenario.money "p1" "5" true]))))
             [ClickOpenBox; Scenario.ok Scenario.lost; Tick; ClickPlayAgain]) = [].
Proof.
  apply (locked_session_does_nothing
           (Build_Props false (Some "jwt") (Some "box-1")
              (Some (Scenario.box [Scenario.money "p1" "5" true])))).
  - now left.
  - apply reachable_run, reach_mount.
Defined.

(** X8. In every reachable session [playingGame] is set exactly while a
    play request is in flight, and that is exactly while the state is
    [loading]; so whenever a button is rendered and enabled, the guard of
    its handler lets the click through. *)
Theorem playing_flag_tracks_the_request (p : Props) (w : World) :
  reachable p w ->
  (playingGame (state w) = true <-> awaiting w <> None)
  /\ (awaiting w <> None <-> gameState (state w) = loading)
  /\ (open_box_button w = true \/ play_again_button w = true ->
      ~ guard_stops (state w) (props w)).
Proof.
  intro R. pose proof (reachable_sound p w R) as (P & I & G & _).
  assert (A : awaiting w <> None <-> gameState (state w) = loading).
  { unfold Inv in I. destruct (gameState (state w)); split; intro H;
      try discriminate; try reflexivity; destruct I as (I1 & _); congruence. }
  assert (Pg : playingGame (state w) = true <-> awaiting w <> None).
  { rewrite G. unfold in_flight. destruct (awaiting w); split; intro H;
      try discriminate; try reflexivity; congruence. }
  split; [exact Pg|]. split; [exact A|].
  intros B [H|[H|H]].
  - destruct B as [B|B];
      [apply open_box_button_true in B|apply play_again_button_true in B];
      destruct B as (_ & _ & Sc); congruence.
  - destruct B as [B|B];
      [apply open_box_button_true in B|apply play_again_button_true in B];
      destruct B as (_ & Au & _); congruence.
  - apply Pg, A in H.
    destruct B as [B|B];
      [apply open_box_button_true in B|apply play_again_button_true in B];
      destruct B as (Gs & _); congruence.
Qed.

Lemma playing_flag_tracks_the_request_witness :
  playingGame (state Scenario.in_flight) = true
  <-> awaiting Scenario.in_flight <> None.
Proof.
  apply (playing_flag_tracks_the_request
           (Scenario.player [Scenario.money "p1" "5" true])).
  unfold Scenario.in_flight. apply reachable_run, reach_mount.
Defined.

(** X9. A click on a button that is rendered and enabled always starts a
    play attempt: the data of the previous spin is cleared and exactly one
    play request with the route id and the token of the session is added,
    the state becoming [loading] - or, the id or the token missing, one
    toast is added and the state is [idle]; no timer is touched.  A click
    on a button that is absent or disabled changes nothing. *)
Theorem click_starts_one_attempt (p : Props) (w : World) :
  reachable p w ->
  (open_box_button w = true ->
   attempt w (step w ClickOpenBox) /\ clean (state (step w ClickOpenBox)))
  /\ (play_again_button w = true ->
      attempt w (step w ClickPlayAgain) /\ clean (state (step w ClickPlayAgain)))
  /\ (open_box_button w = false -> step w ClickOpenBox = w)
  /\ (play_again_button w = false -> step w ClickPlayAgain = w).
Proof.
  intro R. pose proof (reachable_sound p w R) as (P & I & G & _).
  assert (C : forall e w', w' = step w e -> attempt w w' -> clean (state w')).
  { intros e w' E At. pose proof (step_Inv w e I) as I'. rewrite <- E in I'.
    unfold Inv in I'.
    destruct At as (_ & _ & _ & _ & _
                    & [(i & t & _ & _ & _ & _ & Gs & _)|(_ & Gs & _)]);
      rewrite Gs in I'; apply I'. }
  split; [|split; [|split]].
  - intro B. simpl. rewrite B.
    apply open_box_button_true in B. destruct B as (Gs & Au & Sc).
    unfold Inv in I. rewrite Gs in I. destruct I as (A & _).
    assert (Pg : playingGame (state w) = false)
      by (rewrite G; unfold in_flight; now rewrite A).
    destruct (handleOpenBox_passed (state w) w Sc Au Pg) as [At _].
    split; [exact At|]. apply (C ClickOpenBox); [|exact At].
    simpl. unfold open_box_button, button_disabled. rewrite Gs, Au. simpl.
    now destruct (scratchCardData (props w)).
  - intro B. simpl. rewrite B.
    apply play_again_button_true in B. destruct B as (Gs & Au & Sc).
    pose proof I as I0.
    unfold Inv in I. rewrite Gs in I. destruct I as (A & _).
    assert (Pg : playingGame (state w) = false)
      by (rewrite G; unfold in_flight; now rewrite A).
    destruct (handlePlayAgain_passed (state w) w Sc Au Pg) as (At & Ri & Sp & Fr).
    split; [exact At|].
    destruct At as (_ & _ & Wi & Gr & (Hw & Cf & Tw) & _).
    unfold clean. now repeat split.
  - intro B. simpl. now rewrite B.
  - intro B. simpl. now rewrite B.
Qed.

Lemma click_starts_one_attempt_witness :
  attempt (wait 4000 Scenario.spin_lost) (step (wait 4000 Scenario.spin_lost) ClickPlayAgain)
  /\ clean (state (step (wait 4000 Scenario.spin_lost) ClickPlayAgain)).
Proof.
  assert (R : reachable (Scenario.player [Scenario.money "p1" "5" true])
                (wait 4000 Scenario.spin_lost)).
  { apply reachable_wait. unfold Scenario.spin_lost, Scenario.in_flight.
    apply reachable_run, reachable_run, reach_mount. }
  apply (proj1 (proj2 (click_starts_one_attempt _ _ R))).
  vm_compute. reflexivity.
Defined.

(** X10. In every reachable session a win is on display in state
    [completed] only: outside it the win flag and the confetti are off and
    the total winnings are 0; and the confetti never shows without the win
    flag. *)
Theorem win_is_shown_in_completed_only (p : Props) (w : World) :
  reachable p w ->
  (gameState (state w) <> completed ->
   hasWon (state w) = false /\ showConfetti (state w) = false
   /\ totalWinnings (state w) = Js.of_Z 0)
  /\ (showConfetti (state w) = true -> hasWon (state w) = true).
Proof.
  intro R. destruct (reachable_sound p w R) as (_ & _ & _ & K & _).
  unfold win_display_ok, no_win_shown in K.
  destruct (gameState (state w)); split; try (intros _; exact K);
    try (intro H; congruence); try exact K;
    destruct K as (K1 & K2 & _); intro H; congruence.
Qed.

Lemma win_is_shown_in_completed_only_witness :
  hasWon (state (wait 1500 Scenario.spin_lost)) = false
  /\ showConfetti (state (wait 1500 Scenario.spin_lost)) = false
  /\ totalWinnings (state (wait 1500 Scenario.spin_lost)) = Js.of_Z 0.
Proof.
  assert (R : reachable (Scenario.player [Scenario.money "p1" "5" true])
                (wait 1500 Scenario.spin_lost)).
  { apply reachable_wait. unfold Scenario.spin_lost, Scenario.in_flight.
    apply reachable_run, reachable_run, reach_mount. }
  apply (proj1 (win_is_shown_in_completed_only _ _ R)).
  vm_compute. discriminate.
Defined.

(** X11. Everything a reachable session has sent is well formed: a play
    request carries the route id and the token of the session, both not
    empty, and is only sent for an authenticated user with a loaded
    catalogue; a profile request carries the token; an error toast has a
    message. *)
Theorem requests_carry_the_credentials (p : Props) (w : World) :
  reachable p w ->
  (forall i t, In (PlayRequest i t) (effects w) ->
               id p = Some i /\ token p = Some t /\ i <> "" /\ t <> ""
               /\ isAuthenticated p = true /\ scratchCardData p <> None)
  /\ (forall t, In (ProfileRequest t) (effects w) -> token p = Some t /\ t <> "")
  /\ (forall m, In (ToastError m) (effects w) -> m <> "").
Proof.
  intro R. destruct (reachable_sound p w R) as (_ & _ & _ & _ & _ & F).
  rewrite Forall_forall in F.
  split; [|split].
  - intros i t I. exact (F _ I).
  - intros t I. exact (F _ I).
  - intros m I. exact (F _ I).
Qed.

Lemma requests_carry_the_credentials_witness :
  id (Scenario.player [Scenario.money "p1" "5" true]) = Some "box-1"
  /\ token (Scenario.player [Scenario.money "p1" "5" true]) = Some "jwt"
  /\ "box-1" <> "" /\ "jwt" <> ""
  /\ isAuthenticated (Scenario.player [Scenario.money "p1" "5" true]) = true
  /\ scratchCardData (Scenario.player [Scenario.money "p1" "5" true]) <> None.
Proof.
  assert (R : reachable (Scenario.player [Scenario.money "p1" "5" true])
                Scenario.in_flight).
  { unfold Scenario.in_flight. apply reachable_run, reach_mount. }
  apply (proj1 (requests_carry_the_credentials _ _ R) "box-1" "jwt").
  vm_compute. now left.
Defined.

Lemma fold_with_one_spin_end (ready : list Timer) (D : Z) (c : Closure) (x : World) :
  filter is_spin_end ready = [Build_Timer D (SpinEnd c)] ->
  exists x1,
    calm x x1
    /\ calm (spinEnd c x1)
            (fold_left (fun w' tm => run_callback (callback tm) w') ready x).
Proof.
  intro E. destruct (filter_single _ _ _ E) as (l1 & l2 & -> & E1 & E2).
  rewrite fold_left_app.
  exists (fold_left (fun w' tm => run_callback (callback tm) w') l1 x).
  split; [apply fold_confetti; now apply spins_zero_filter|].
  apply (fold_confetti l2 (spins_zero_filter _ E2)).
Qed.

Lemma spinEnd_stops_spinning (c : Closure) (w : World) :
  isSpinning (state (spinEnd c w)) = false.
Proof.
  unfold spinEnd, refreshUserBalance.
  destruct (gameResult (seen c)) as [r|]; [destruct (GameResult.isWinner r)|];
    simpl; destruct (token (props w)) as [[|x y]|]; reflexivity.
Qed.

(** X12. Every millisecond of a spin either leaves the session in
    [spinning] and sends nothing, or completes it; on completion the
    spinning flag is cleared and [refreshUserBalance] sends exactly one
    profile request with the token - none when the session has no token. *)
Theorem completion_refreshes_balance_once (p : Props) (w : World) :
  reachable p w ->
  gameState (state w) = spinning ->
  (gameState (state (tick w)) = spinning /\ effects (tick w) = effects w)
  \/ (gameState (state (tick w)) = completed
      /\ isSpinning (state (tick w)) = false
      /\ effects (tick w) = (effects w ++ profile_request p)%list).
Proof.
  intros R Gs. pose proof (reachable_sound p w R) as (P & I & _).
  unfold Inv in I. rewrite Gs in I. destruct I as (_ & S). simpl in S.
  unfold tick.
  pose proof (spins_split (fun tm => (due tm <=? now w + 1)%Z) (timers w)) as Sp.
  match goal with
  | |- context [fold_left ?g ?ready ?x] => set (l := ready) in *; set (w0 := x)
  end.
  destruct (filter is_spin_end l) as [|T rest] eqn:E.
  - left.
    destruct (calm_fields _ _ (fold_confetti l (spins_zero_filter _ E) w0))
      as (_ & _ & _ & _ & Ef & G & _).
    rewrite G, Ef. subst w0. simpl. now split.
  - right.
    assert (Rest : rest = []).
    { unfold spins in Sp at 1. rewrite E in Sp. simpl in Sp.
      destruct rest; [reflexivity|simpl in Sp; lia]. }
    subst rest.
    assert (IT : In T (filter is_spin_end l)) by (rewrite E; now left).
    apply filter_In in IT. destruct IT as [_ IT].
    destruct T as [D [c|]]; [|discriminate].
    destruct (fold_with_one_spin_end l D c w0 E) as (w1 & C1 & C2).
    destruct (calm_fields _ _ C1) as (P1 & _ & _ & _ & Ef1 & _).
    destruct (spinEnd_facts c w1) as (G & _).
    destruct (spinEnd_keeps c w1) as (_ & _ & _ & Ef & _).
    pose proof (spinEnd_stops_spinning c w1) as Sp1.
    destruct (calm_fields _ _ C2) as (_ & _ & _ & _ & Ef2 & G2 & _).
    split; [now rewrite G2|]. split.
    + destruct C2 as [-> | ->]; exact Sp1.
    + rewrite Ef2, Ef, Ef1, P1. subst w0. simpl. now rewrite P.
Qed.

Lemma completion_refreshes_balance_once_witness :
  (gameState (state (tick (wait 3999 Scenario.spin_lost))) = spinning
   /\ effects (tick (wait 3999 Scenario.spin_lost))
      = effects (wait 3999 Scenario.spin_lost))
  \/ (gameState (state (tick (wait 3999 Scenario.spin_lost))) = completed
      /\ isSpinning (state (tick (wait 3999 Scenario.spin_lost))) = false
      /\ effects (tick (wait 3999 Scenario.spin_lost))
         = (effects (wait 3999 Scenario.spin_lost)
            ++ profile_request (Scenario.player [Scenario.money "p1" "5" true]))%list).
Proof.
  apply (completion_refreshes_balance_once
           (Scenario.player [Scenario.money "p1" "5" true])).
  - apply reachable_wait. unfold Scenario.spin_lost, Scenario.in_flight.
    apply reachable_run, reachable_run, reach_mount.
  - vm_compute. reflexivity.
Defined.

(** X13. The reveal delay.  When the answer of a play request yields a
    target, the session is [spinning] during the next 3999 ms and
    [completed] at 4000 ms, whatever the size of the reel and the position
    of the target. *)
Theorem reveal_takes_4000_ms (p : Props) (w : World) (c : Closure)
        (o : FetchOutcome) (d : Draws) (r : GameResult.t) (t : RouletteItem.t) :
  reachable p w ->
  awaiting w = Some c ->
  result (playGame_return o) = Some r ->
  targetItem (reconcile (pick_draw d) r
                (generateRouletteItems (sort_draws d) (ScratchCardData.prizes (card c))))
  = Some t ->
  (forall n, (n < 4000)%N ->
             gameState (state (wait n (step w (PlaySettled o d)))) = spinning)
  /\ gameState (state (wait 4000 (step w (PlaySettled o d)))) = completed.
Proof.
  intros R A F T. destruct (spin_reveal p w c o d r t R A F T) as (B & C & _).
  now split.
Qed.

Lemma reveal_takes_4000_ms_witness :
  gameState (state (wait 4000 (step Scenario.in_flight (Scenario.ok Scenario.lost))))
  = completed.
Proof.
  assert (R : reachable (Scenario.player [Scenario.money "p1" "5" true])
                Scenario.in_flight).
  { unfold Scenario.in_flight. apply reachable_run, reach_mount. }
  assert (A : awaiting Scenario.in_flight
              = Some (Build_Closure initial (Scenario.box [Scenario.money "p1" "5" true])))
    by reflexivity.
  destruct (targetItem
              (reconcile (pick_draw Scenario.no_draws) Scenario.lost
                 (generateRouletteItems (sort_draws Scenario.no_draws)
                    (ScratchCardData.prizes
                       (card (Build_Closure initial
                                (Scenario.box [Scenario.money "p1" "5" true])))))))
    as [t|] eqn:T.
  - exact (proj2 (reveal_takes_4000_ms _ _ _
                    (Responds true "ok" (Some Scenario.lost)) Scenario.no_draws
                    Scenario.lost t R A eq_refl T)).
  - vm_compute in T. discriminate.
Defined.

(** X14. A session whose catalogue has no prize can still be played: the
    button is enabled and the request goes out; then, whatever the answer
    brings as a result, the state becomes [spinning] and stays there for
    ever, with no win shown. *)
Theorem empty_catalogue_spin_never_ends (p : Props) (w : World) (c : Closure)
        (o : FetchOutcome) (d : Draws) (r : GameResult.t) :
  reachable p w ->
  awaiting w = Some c ->
  ScratchCardData.prizes (card c) = [] ->
  result (playGame_return o) = Some r ->
  forall n,
    gameState (state (wait n (step w (PlaySettled o d)))) = spinning
    /\ hasWon (state (wait n (step w (PlaySettled o d)))) = false.
Proof.
  intros R A E F. apply (degraded_match_stalls p w c o d r R A F).
  rewrite E. unfold generateRouletteItems. simpl.
  unfold reconcile.
  destruct (GameResult.isWinner r); [destruct (GameResult.prize r)|]; simpl;
    trivial; now destruct (random_index (pick_draw d) 0).
Qed.

Lemma empty_catalogue_spin_never_ends_witness :
  open_box_button (mount (Scenario.player [])) = true
  /\ effects (step (mount (Scenario.player [])) ClickOpenBox)
     = [PlayRequest "box-1" "jwt"]
  /\ gameState (state (wait 100000
                         (step (step (mount (Scenario.player [])) ClickOpenBox)
                               (Scenario.ok (Scenario.won_money "1500"))))) = spinning.
Proof.
  split; [reflexivity|]. split; [reflexivity|].
  assert (R : reachable (Scenario.player []) (step (mount (Scenario.player [])) ClickOpenBox))
    by (apply reach_step, reach_mount).
  apply (empty_catalogue_spin_never_ends (Scenario.player []) _
           (Build_Closure initial (Scenario.box []))
           (Responds true "ok" (Some (Scenario.won_money "1500"))) Scenario.no_draws
           (Scenario.won_money "1500") R eq_refl eq_refl eq_refl 100000%N).
Defined.

(** ** Where the reel stops *)

Lemma find_index_In {A : Type} (f : A -> bool) (l : list A) (x : A) :
  In x l -> f x = true -> exists i, find_index f l = Some i.
Proof.
  induction l as [|y l IH]; simpl; [contradiction|].
  intros [->|I] F.
  - rewrite F. now exists 0%nat.
  - destruct (f y); [now exists 0%nat|].
    destruct (IH I F) as (i & ->). now exists (S i).
Qed.

Lemma NoDup_map_same {A B : Type} (f : A -> B) (l : list A) (x y : A) :
  NoDup (map f l) -> In x l -> In y l -> f x = f y -> x = y.
Proof.
  induction l as [|z l IH]; simpl; [contradiction|].
  intros N Ix Iy E. inversion N as [|? ? Nz Nl]; subst.
  destruct Ix as [->|Ix], Iy as [->|Iy]; trivial.
  - exfalso. apply Nz. rewrite E. now apply in_map.
  - exfalso. apply Nz. rewrite <- E. now apply in_map.
  - now apply IH.
Qed.

(** X15. When reconciliation yields a target, [startRouletteSpin] finds its
    position on the reel: an index [i] below the reel length [N] whose cell
    has the id of the target - and is the target itself when the ids of the
    reel are pairwise different.  It sets the rotation to
    [360 * N + 120 * i - 190], a positive number, the duration to 4000, the
    spinning flag, and one completion timer due 4000 ms later. *)
Theorem spin_stops_on_the_target (c : Closure) (u : Q) (r : GameResult.t)
        (items : list RouletteItem.t) (t : RouletteItem.t) (w : World) :
  targetItem (reconcile u r items) = Some t ->
  exists i x,
    (i < List.length (items_after (reconcile u r items)))%nat
    /\ nth_error (items_after (reconcile u r items)) i = Some x
    /\ RouletteItem.id x = RouletteItem.id t
    /\ (NoDup (map RouletteItem.id (items_after (reconcile u r items))) -> x = t)
    /\ finalRotation
         (state (startRouletteSpin c (Some t) (items_after (reconcile u r items)) w))
       = (360 * Z.of_nat (List.length (items_after (reconcile u r items)))
          + 120 * Z.of_nat i - 190)%Z
    /\ (0 < finalRotation
              (state (startRouletteSpin c (Some t) (items_after (reconcile u r items)) w)))%Z
    /\ isSpinning
         (state (startRouletteSpin c (Some t) (items_after (reconcile u r items)) w))
       = true
    /\ spinDuration
         (state (startRouletteSpin c (Some t) (items_after (reconcile u r items)) w))
       = 4000%Z
    /\ timers (startRouletteSpin c (Some t) (items_after (reconcile u r items)) w)
       = (timers w ++ [Build_Timer (now w + 4000)%Z (SpinEnd c)])%list.
Proof.
  intro T. pose proof (reconcile_target_In u r items t T) as I.
  pose proof (reconcile_target_nonempty u r items t T) as NE.
  set (reel := items_after (reconcile u r items)) in *.
  destruct (find_index_In
              (fun item => String.eqb (RouletteItem.id item) (RouletteItem.id t))
              reel t I (String.eqb_refl _)) as (i & F).
  destruct (find_index_Some _ _ _ F) as (x & N & Fx & _).
  apply String.eqb_eq in Fx.
  assert (L : (i < List.length reel)%nat) by (apply nth_error_Some; congruence).
  exists i, x. unfold startRouletteSpin. rewrite NE. unfold findIndex. rewrite F.
  cbv zeta.
  cbn [state upd setTimeout setSpinDuration setFinalRotation setIsSpinning
       finalRotation isSpinning spinDuration timers now].
  change (500 / 2)%Z with 250%Z. change (120 / 2)%Z with 60%Z.
  assert (Li : (0 <= Z.of_nat i)%Z) by lia.
  assert (Ln : (1 <= Z.of_nat (List.length reel))%Z) by lia.
  repeat split; trivial; try lia.
  intro ND. apply (NoDup_map_same RouletteItem.id reel); trivial.
  now apply (nth_error_In _ i).
Qed.

Lemma spin_stops_on_the_target_witness :
  exists i x,
    nth_error (items_after (reconcile 0 (Scenario.won_money "1500")
                 (generateRouletteItems [] [Scenario.money "p1" "5" true;
                                            Scenario.money "p2" "1500" true]))) i
    = Some x
    /\ finalRotation
         (state (startRouletteSpin
                   (Build_Closure initial (Scenario.box []))
                   (Some (RouletteItem.mark
                            (cell (Scenario.money "p2" "1500" true) legendary 0)))
                   (items_after (reconcile 0 (Scenario.won_money "1500")
                      (generateRouletteItems [] [Scenario.money "p1" "5" true;
                                                 Scenario.money "p2" "1500" true])))
                   (mount (Scenario.player []))))
       = (360 * 9 + 120 * Z.of_nat i - 190)%Z.
Proof.
  destruct (spin_stops_on_the_target
              (Build_Closure initial (Scenario.box []))
              0 (Scenario.won_money "1500")
              (generateRouletteItems [] [Scenario.money "p1" "5" true;
                                         Scenario.money "p2" "1500" true])
              (RouletteItem.mark (cell (Scenario.money "p2" "1500" true) legendary 0))
              (mount (Scenario.player [])))
    as (i & x & _ & N & _ & _ & F & _).
  - vm_compute. reflexivity.
  - exists i, x. split; [exact N|]. rewrite F. reflexivity.
Defined.

End SessionFacts.

(** ** The catalogue fetch and the image addresses *)

Section Plumbing.
Import RouletteBoxPage.

(** X16. The catalogue fetch.  With a route id, the loading flag is off
    once the fetch has ended, however it ended; the catalogue is replaced
    only by an answer that reports success; a thrown fetch or a reported
    failure leaves the catalogue as it was and records a message.  Without
    a route id nothing changes, and loading stays on.  A session built on a
    catalogue that is still missing after the fetch never sends anything. *)
Theorem catalogue_fetch_outcomes (id : option string) (o : CatalogueFetch.FetchOutcome)
        (s : CatalogueFetch.State) :
  ((id = None \/ id = Some "") -> CatalogueFetch.fetchScratchCardData id o s = s)
  /\ (id <> None -> id <> Some "" ->
      CatalogueFetch.loading (CatalogueFetch.fetchScratchCardData id o s) = false
      /\ (forall m data,
             o = CatalogueFetch.Responds true m data ->
             CatalogueFetch.scratchCardData (CatalogueFetch.fetchScratchCardData id o s)
             = data
             /\ CatalogueFetch.error (CatalogueFetch.fetchScratchCardData id o s)
                = CatalogueFetch.error s)
      /\ ((o = CatalogueFetch.Rejects
           \/ exists m data, o = CatalogueFetch.Responds false m data) ->
          CatalogueFetch.scratchCardData (CatalogueFetch.fetchScratchCardData id o s)
          = CatalogueFetch.scratchCardData s
          /\ exists msg,
               msg <> ""
               /\ CatalogueFetch.error (CatalogueFetch.fetchScratchCardData id o s)
                  = Some msg))
  /\ (forall au tk rid w,
        CatalogueFetch.scratchCardData (CatalogueFetch.fetchScratchCardData id o s) = None ->
        reachable (CatalogueFetch.props_of au tk rid
                     (CatalogueFetch.fetchScratchCardData id o s)) w ->
        gameState (state w) = idle /\ effects w = []).
Proof.
  split; [|split].
  - intros [->| ->]; reflexivity.
  - intros N1 N2. destruct id as [[|a i]|]; try congruence.
    split; [now destruct o as [|[|] m data]|]. split.
    + intros m data ->. now split.
    + intros [->|(m & data & ->)]; simpl; split; trivial;
        eexists; (split; [|reflexivity]); discriminate.
  - intros au tk rid w E R.
    assert (D : button_disabled
                  (CatalogueFetch.props_of au tk rid
                     (CatalogueFetch.fetchScratchCardData id o s)) = true).
    { unfold button_disabled, CatalogueFetch.props_of. simpl. rewrite E.
      apply orb_true_r. }
    destruct (locked_inert _ w D R) as (S & Ef & _).
    rewrite S. now split.
Qed.

Lemma catalogue_fetch_outcomes_witness :
  CatalogueFetch.loading
    (CatalogueFetch.fetchScratchCardData (Some "box-1") CatalogueFetch.Rejects
       CatalogueFetch.initial) = false
  /\ effects (run (mount (CatalogueFetch.props_of true (Some "jwt") (Some "box-1")
                            (CatalogueFetch.fetchScratchCardData (Some "box-1")
                               CatalogueFetch.Rejects CatalogueFetch.initial)))
                 [ClickOpenBox; Tick]) = [].
Proof.
  pose proof (catalogue_fetch_outcomes (Some "box-1") CatalogueFetch.Rejects
                CatalogueFetch.initial) as (_ & H & K).
  split.
  - apply H; discriminate.
  - apply (K true (Some "jwt") (Some "box-1")); [reflexivity|].
    apply reachable_run, reach_mount.
Defined.

Lemma replace_first_absent (pat rep s : string) :
  occurs pat s = false -> replace_first pat rep s = s.
Proof.
  induction s as [|c s IH]; cbn [occurs replace_first].
  - destruct (prefix pat ""); [discriminate|reflexivity].
  - destruct (prefix pat (String c s)); [discriminate|].
    cbn [orb]. intro O. now rewrite IH.
Qed.

(** X17. [fixImageUrl] returns the empty address for the empty address and
    leaves alone every address that contains none of the three rewritten
    fragments; and whatever the catalogue, no cell of the reel has an empty
    image: a missing address is replaced by the default picture. *)
Theorem image_addresses (url : string) :
  fixImageUrl "" = ""
  /\ (occurs "raspa.ae" url = false ->
      occurs "/uploads/scratchcards/" url = false ->
      occurs "/uploads/prizes/" url = false ->
      fixImageUrl url = url)
  /\ (forall draws prizes c,
        In c (generateRouletteItems draws prizes) -> RouletteItem.image c <> "").
Proof.
  split; [reflexivity|]. split.
  - intros O1 O2 O3. unfold fixImageUrl. destruct url as [|a u]; [reflexivity|].
    now rewrite (replace_first_absent _ _ _ O1), (replace_first_absent _ _ _ O2),
      (replace_first_absent _ _ _ O3).
  - intros draws prizes c I.
    apply (Permutation_in _ (generate_Permutation draws prizes)) in I.
    apply in_flat_map in I. destruct I as (p & _ & I).
    unfold expand in I. apply in_map_iff in I. destruct I as (i & <- & _).
    simpl. destruct (fixImageUrl (Prize.image_url p)); discriminate.
Qed.

Lemma image_addresses_witness :
  fixImageUrl "https://cdn.example.com/img/a.png" = "https://cdn.example.com/img/a.png".
Proof.
  apply (proj1 (proj2 (image_addresses "https://cdn.example.com/img/a.png")));
    reflexivity.
Defined.

Lemma loss_always_has_a_target_witness :
  exists t,
    targetItem (reconcile (1 # 3) Scenario.lost
                  (generateRouletteItems [2; 0]%nat [Scenario.money "p2" "1500" true]))
    = Some t
    /\ In t (generateRouletteItems [2; 0]%nat [Scenario.money "p2" "1500" true]).
Proof.
  destruct (loss_always_has_a_target (1 # 3) [2; 0]%nat Scenario.lost
              [Scenario.money "p2" "1500" true]) as (t & T & I & _).
  - now left.
  - discriminate.
  - exists t. now split.
Defined.

End Plumbing.
